(** * superzip: the [ziplus] row generator

    A shallow embedding of [ziplus] (superzip.py) and the properties of its
    rows.  [ziplus] is a Python generator function: calling it only creates a
    generator object, every line of its body runs inside a later [next]
    request.  The embedding keeps that shape: a generator is a small state
    machine ([Created], [Suspended], [Closed]) and [next] runs the body from
    one suspension point to the following one.

    The [debug] flag only prints; the embedding is the function with
    [debug=False].  A row is handed out as the very list the generator
    keeps as [previous]; the consumer embedded here reads the rows and does
    not change them. *)

From stdpp Require Import base numbers list strings.

Set Warnings "-register-all".

(** ** Python values *)

(** Exception instances.  [StopIterationInst] is an instance of the class
    [StopIteration], not the class itself. *)
Inductive exn :=
| StopIterationInst (msg : string)
| ValueError (msg : string)
| IndexError (msg : string)
| RuntimeError (msg : string)
| OtherError (cls msg : string).

(** The values that reach [ziplus].  [VSeq] stands for the built-in
    Sequences (list, tuple, range); [VIter] for objects that are Iterable
    but no Sequence (an iterator such as [reversed(range(10))], a generator,
    a set) together with their class name.  Every [VIter] argument is an
    iterator object of its own.  [VPrevious] is the module's marker object
    and [VStopIteration] the class [StopIteration]. *)
Inductive value :=
| VNone
| VInt (n : Z)
| VStr (s : string)
| VSeq (l : list value)
| VIter (cls : string) (l : list value)
| VPrevious
| VStopIteration
| VExc (e : exn).

(** [isinstance(v, Iterable)] *)
Definition is_iterable (v : value) : bool :=
  match v with
  | VStr _ | VSeq _ | VIter _ _ => true
  | _ => false
  end.

(** [isinstance(v, Sequence)] *)
Definition is_sequence (v : value) : bool :=
  match v with
  | VStr _ | VSeq _ => true
  | _ => false
  end.

(** Iterating a [str] gives its characters as strings of length one. *)
Definition chars (s : string) : list value :=
  (λ c, VStr (String c EmptyString)) <$> String.list_ascii_of_string s.

(** What iterating (or indexing) a value goes through. *)
Definition elements (v : value) : list value :=
  match v with
  | VStr s => chars s
  | VSeq l => l
  | VIter _ l => l
  | _ => []
  end.

(** [type(v).__name__]; it is only consulted for a value that is no
    Sequence, list, tuple and range are not told apart. *)
Definition type_name (v : value) : string :=
  match v with
  | VNone => "NoneType"
  | VInt _ => "int"
  | VStr _ => "str"
  | VSeq _ => "tuple"
  | VIter cls _ => cls
  | VPrevious => "PreviousType"
  | VStopIteration => "type"
  | VExc (StopIterationInst _) => "StopIteration"
  | VExc (ValueError _) => "ValueError"
  | VExc (IndexError _) => "IndexError"
  | VExc (RuntimeError _) => "RuntimeError"
  | VExc (OtherError cls _) => cls
  end.

(** [iter(i if isinstance(i, Iterable) else (i,))], as the elements the
    iterator has still to give. *)
Definition as_iter (i : value) : list value :=
  if is_iterable i then elements i else [i].

(** [raise e] inside a generator body: with [generator_stop] an escaping
    [StopIteration] instance is replaced by a [RuntimeError]. *)
Definition gen_raise (e : exn) : exn :=
  match e with
  | StopIterationInst _ => RuntimeError "generator raised StopIteration"
  | _ => e
  end.

(** ** The generator frame *)

(** The local variables of [ziplus] that live across a [yield]. [items]
    holds, for every column, what its iterator has not given yet. *)
Record frame := Frame {
  defaults : list value;
  items : list (list value);
  n_items : nat;
  n_stopped : nat;
  stopped : list bool;
  i_rows : nat;
  values : list value
}.

Definition append_value (v : value) (fr : frame) : frame :=
  Frame (defaults fr) (items fr) (n_items fr) (n_stopped fr) (stopped fr)
        (i_rows fr) (values fr ++ [v]).

Definition advance_item (i : nat) (rest : list value) (fr : frame) : frame :=
  Frame (defaults fr) (<[i:=rest]> (items fr)) (n_items fr) (n_stopped fr)
        (stopped fr) (i_rows fr) (values fr).

Definition mark_stopped (i : nat) (fr : frame) : frame :=
  Frame (defaults fr) (items fr) (n_items fr) (S (n_stopped fr))
        (<[i:=true]> (stopped fr)) (i_rows fr) (values fr).

Definition next_row (fr : frame) : frame :=
  Frame (defaults fr) (items fr) (n_items fr) (n_stopped fr) (stopped fr)
        (S (i_rows fr)) [].

(** How a piece of the body ends: it falls through, it executes [return],
    or it raises. *)
Inductive ctl :=
| Normal (fr : frame)
| Return (fr : frame)
| Throw (e : exn) (fr : frame).

Definition index_error : exn := IndexError "index out of range".

(** The tail of the loop body, reached for a column that is exhausted:
    [if isinstance(defaults[i], Exception): raise defaults[i]] and then
    [values.append(... if defaults[i] is Previous else defaults[i])].
    [previous] is [None] in the loop of the first row, which appends the
    literal [None], and the row yielded last in the loop of the later rows,
    which appends [previous[i]]. *)
Definition fill_column (previous : option (list value)) (i : nat)
    (fr : frame) : ctl :=
  match defaults fr !! i with
  | None => Throw index_error fr
  | Some (VExc e) => Throw (gen_raise e) fr
  | Some VPrevious =>
      match previous with
      | None => Normal (append_value VNone fr)
      | Some row =>
          match row !! i with
          | Some v => Normal (append_value v fr)
          | None => Throw index_error fr
          end
      end
  | Some d => Normal (append_value d fr)
  end.

(** One pass of the loop body for column [i]. *)
Definition column (previous : option (list value)) (i : nat)
    (fr : frame) : ctl :=
  match stopped fr !! i with
  | None => Throw index_error fr
  | Some false =>
      match items fr !! i with
      | None => Throw index_error fr
      | Some (x :: rest) => Normal (append_value x (advance_item i rest fr))
      | Some [] =>
          let fr' := mark_stopped i fr in
          match defaults fr' !! i with
          | None => Throw index_error fr'
          | Some VStopIteration => Return fr'
          | Some _ => fill_column previous i fr'
          end
      end
  | Some true => fill_column previous i fr
  end.

(** [for i in i_items: ...] *)
Fixpoint for_loop (previous : option (list value)) (i_items : list nat)
    (fr : frame) : ctl :=
  match i_items with
  | [] => Normal fr
  | i :: rest =>
      match column previous i fr with
      | Normal fr' => for_loop previous rest fr'
      | halted => halted
      end
  end.

(** The checks and initialisations before the first loop. *)
Definition start (iterables : list value) (dflt : value) : exn + frame :=
  let n := length iterables in
  let dflt := match dflt with
              | VNone => VSeq (replicate n VStopIteration)
              | d => d
              end in
  if negb (is_sequence dflt) then
    inl (ValueError (String.append "defaults expects a Sequence but found "
                                   (type_name dflt)))
  else if negb (length (elements dflt) =? n) then
    inl (ValueError "Bad defaults length")
  else
    inr (Frame (elements dflt) (as_iter <$> iterables) n 0
               (replicate n false) 0 []).

(** ** The generator *)

(** [Closed] keeps what the column iterators had left when the generator
    finished: the iterators belong to the caller and outlive it. *)
Inductive generator :=
| Created (iterables : list value) (dflt : value)
| Suspended (fr : frame)
| Closed (cursors : list (list value)).

Inductive outcome :=
| Yield (row : list value)
| StopIter
| Raise (e : exn).

(** [while n_stopped < n_items: yield values] *)
Definition while_head (fr : frame) : outcome * generator :=
  if n_stopped fr <? n_items fr then (Yield (values fr), Suspended fr)
  else (StopIter, Closed (items fr)).

Definition after_loop (c : ctl) : outcome * generator :=
  match c with
  | Normal fr => while_head fr
  | Return fr => (StopIter, Closed (items fr))
  | Throw e fr => (Raise e, Closed (items fr))
  end.

(** One row request. *)
Definition next (g : generator) : outcome * generator :=
  match g with
  | Created iterables dflt =>
      match start iterables dflt with
      | inl e => (Raise e, Closed [])
      | inr fr => after_loop (for_loop None (seq 0 (n_items fr)) fr)
      end
  | Suspended fr =>
      after_loop
        (for_loop (Some (values fr)) (seq 0 (n_items fr)) (next_row fr))
  | Closed cursors => (StopIter, Closed cursors)
  end.

(** Calling the generator function runs none of its body. *)
Definition ziplus (iterables : list value) (dflt : value) : exn + generator :=
  inr (Created iterables dflt).

(** ** Consuming a generator *)

Inductive ending :=
| Finished
| Raised (e : exn)
| Unfinished.

(** [for row in g], giving up after [fuel] requests. *)
Fixpoint run (fuel : nat) (g : generator) : list (list value) * ending :=
  match fuel with
  | 0 => ([], Unfinished)
  | S fuel' =>
      match next g with
      | (Yield row, g') =>
          let (rows, e) := run fuel' g' in (row :: rows, e)
      | (StopIter, _) => ([], Finished)
      | (Raise e, _) => ([], Raised e)
      end
  end.

(** The generator after [k] requests. *)
Fixpoint advance (k : nat) (g : generator) : generator :=
  match k with
  | 0 => g
  | S k' => advance k' (next g).2
  end.

(** One request more than there are elements is always enough
    ([collect_total]). *)
Definition budget (iterables : list value) : nat :=
  S (sum_list_with (λ i, length (as_iter i)) iterables).

(** All the rows of [ziplus] on these arguments, as [list] or a [for] loop
    collects them, with how the iteration ended. *)
Definition collect (iterables : list value) (dflt : value)
    : list (list value) * ending :=
  run (budget iterables) (Created iterables dflt).

(** ** The examples of the docstring and of the self-test *)

Definition ints (l : list Z) : list value := VInt <$> l.

Definition range10 : value := VSeq (ints [0; 1; 2; 3; 4; 5; 6; 7; 8; 9]%Z).

Definition reversed_range10 : value :=
  VIter "range_iterator" (ints [9; 8; 7; 6; 5; 4; 3; 2; 1; 0]%Z).

Definition abcdef : value := VStr "abcdef".

Definition row3 (a b : Z) (c : string) : list value :=
  [VInt a; VInt b; VStr c].

Definition first_six : list (list value) :=
  [row3 0 9 "a"; row3 1 8 "b"; row3 2 7 "c";
   row3 3 6 "d"; row3 4 5 "e"; row3 5 4 "f"].

Definition last_four : list (list value) :=
  [row3 6 3 "f"; row3 7 2 "f"; row3 8 1 "f"; row3 9 0 "f"].

(** ** The columns over time *)

(** The definitions of this part describe, from the elements and the
    default of every column alone, what the frame holds and what a request
    answers; the lemmas below prove that the generator does just that. *)

(** A column: the elements its iterable gives and its default. *)
Abbreviation col := (list value * value)%type.

(** Before row [j] is built, a column is marked stopped when an earlier
    request found it empty. *)
Definition exhausted (j : nat) (c : col) : bool := length c.1 <? j.

Fixpoint count_if {A} (f : A → bool) (l : list A) : nat :=
  match l with
  | [] => 0
  | x :: l' => (if f x then 1 else 0) + count_if f l'
  end.

(** The frame while row [j] is built, when the columns [pre] have been
    passed and the columns [post] are still to come. *)
Definition frame_at (pre post : list col) (j : nat) (vals : list value)
    : frame :=
  Frame ((pre ++ post).*2)
        (((λ c, drop (S j) c.1) <$> pre) ++ ((λ c, drop j c.1) <$> post))
        (length pre + length post)
        (count_if (exhausted (S j)) pre + count_if (exhausted j) post)
        ((exhausted (S j) <$> pre) ++ (exhausted j <$> post))
        j vals.

(** What an exhausted column is filled with. *)
Definition fill (c : col) : value :=
  match c.2 with
  | VPrevious => default VNone (last c.1)
  | d => d
  end.

(** The value of a column in row [j]. *)
Definition cell (j : nat) (c : col) : value :=
  default (fill c) (c.1 !! j).

Definition row_at (cols : list col) (j : nat) : list value :=
  cell j <$> cols.

Definition prev_at (cols : list col) (j : nat) : option (list value) :=
  match j with
  | 0 => None
  | S j' => Some (row_at cols j')
  end.

(** What a column does when the loop of row [j] reaches it. *)
Inductive verdict :=
| Gives (v : value)
| Stops
| Fails (e : exn).

Definition verdict_at (j : nat) (c : col) : verdict :=
  match c.1 !! j with
  | Some x => Gives x
  | None =>
      match c.2 with
      | VStopIteration =>
          if length c.1 =? j then Stops else Gives VStopIteration
      | VExc e => Fails (gen_raise e)
      | _ => Gives (fill c)
      end
  end.

(** The loop of row [j] from the column after [pre] on. *)
Fixpoint loop_at (j : nat) (pre post : list col) (vals : list value) : ctl :=
  match post with
  | [] => Normal (frame_at pre [] j vals)
  | c :: post' =>
      match verdict_at j c with
      | Gives v => loop_at j (pre ++ [c]) post' (vals ++ [v])
      | Stops => Return (frame_at (pre ++ [c]) post' j vals)
      | Fails e => Throw e (frame_at (pre ++ [c]) post' j vals)
      end
  end.

(** The first column, in loop order, that ends row [j]. *)
Fixpoint first_halt (j : nat) (cols : list col) : option verdict :=
  match cols with
  | [] => None
  | c :: cols' =>
      match verdict_at j c with
      | Gives _ => first_halt j cols'
      | v => Some v
      end
  end.

(** ** The arguments as columns *)

(** [defaults] after [if defaults is None: ...]. *)
Definition given_defaults (iterables : list value) (dflt : value) : value :=
  match dflt with
  | VNone => VSeq (replicate (length iterables) VStopIteration)
  | d => d
  end.

(** The arguments pass the two checks of [start]. *)
Definition valid (iterables : list value) (dflt : value) : bool :=
  is_sequence (given_defaults iterables dflt)
  && (length (elements (given_defaults iterables dflt)) =? length iterables).

Definition columns (iterables : list value) (dflt : value) : list col :=
  zip (as_iter <$> iterables) (elements (given_defaults iterables dflt)).

(** The generator before request [j] (counted from 0), as long as every
    earlier request has yielded a row. *)
Definition gen_at (iterables : list value) (dflt : value) (j : nat)
    : generator :=
  match j with
  | 0 => Created iterables dflt
  | S j' =>
      Suspended (frame_at (columns iterables dflt) [] j'
                          (row_at (columns iterables dflt) j'))
  end.

(** What request [j] answers. *)
Definition outcome_at (cols : list col) (j : nat) : outcome :=
  match first_halt j cols with
  | Some (Fails e) => Raise e
  | Some _ => StopIter
  | None =>
      if count_if (exhausted (S j)) cols <? length cols
      then Yield (row_at cols j)
      else StopIter
  end.

Definition is_yield (o : outcome) : bool :=
  match o with
  | Yield _ => true
  | _ => false
  end.

Definition ending_of (o : outcome) : ending :=
  match o with
  | Yield _ => Unfinished
  | StopIter => Finished
  | Raise e => Raised e
  end.

(** The elements the columns have left before row [j]. *)
Definition remaining (cols : list col) (j : nat) : nat :=
  sum_list_with (λ c, length c.1 - j) cols.

(** Where the loop of a request starts: the row that is [previous] there
    and the frame it works on.  A generator that is closed, or whose
    arguments fail the checks, enters no loop. *)
Definition loop_entry (g : generator) : option (option (list value) * frame) :=
  match g with
  | Created iterables dflt =>
      match start iterables dflt with
      | inl _ => None
      | inr fr => Some (None, fr)
      end
  | Suspended fr => Some (Some (values fr), next_row fr)
  | Closed _ => None
  end.

(** ** Notions the claims are stated with *)

(** The control values among the defaults. *)
Definition is_control (v : value) : bool :=
  match v with
  | VPrevious | VStopIteration | VExc _ => true
  | _ => false
  end.

(** The shortest and the longest of the sequences (0 when there is none). *)
Definition min_len (seqs : list (list value)) : nat :=
  match seqs with
  | [] => 0
  | s :: rest => foldr (λ s' m, length s' `min` m) (length s) rest
  end.

Definition max_len (seqs : list (list value)) : nat :=
  foldr (λ s m, length s `max` m) 0 seqs.

(** The standard truncating zip, as the specification words it: as many
    rows as the shortest sequence has elements, row [j] made of the [j]-th
    element of every sequence (which exists, [j] being below every length:
    the [default] is never taken). *)
Definition truncating_zip (seqs : list (list value)) : list (list value) :=
  (λ j, (λ s, default VNone (s !! j)) <$> seqs) <$> seq 0 (min_len seqs).

Definition with_default (d : value) (seqs : list (list value)) : list col :=
  (λ s, (s, d)) <$> seqs.

(** Two calls the statements below are tried on. *)
Definition stop_demo : list value := [abcdef; VSeq (ints [1; 2]%Z); range10].

Definition stop_demo_defaults : value :=
  VSeq [VPrevious; VStopIteration; VNone].

Definition raise_demo : list value := [range10; reversed_range10; abcdef].

Definition raise_demo_defaults : value :=
  VSeq [VPrevious; VStopIteration; VExc (IndexError "Oh no!")].

(** ** Notions the further properties are stated with *)

(** A column whose default ends the iteration when the column runs out:
    the class [StopIteration] ([return]) or an exception instance
    ([raise]). *)
Definition halting (c : col) : bool :=
  match c.2 with
  | VStopIteration | VExc _ => true
  | _ => false
  end.

(** The number of rows of a call: the length of the longest column, cut
    down to the length of every column that ends the iteration. *)
Definition row_limit (cols : list col) : nat :=
  foldr (λ c m, if halting c then length c.1 `min` m else m)
        (max_len (cols.*1)) cols.

(** How many flags of [stopped] are set. *)
Definition count_true (l : list bool) : nat := count_if id l.

(** The frame a piece of the body leaves behind, however it ends. *)
Definition ctl_frame (c : ctl) : frame :=
  match c with
  | Normal fr | Return fr | Throw _ fr => fr
  end.

(** * Proofs *)

(** ** List facts *)

Section ListFacts.
Context {A B : Type}.
Implicit Types (f : A → B) (l : list A).

Lemma lookup_fmap_middle f (g : A → B) l1 x l2 :
  ((f <$> l1) ++ x :: (g <$> l2)) !! length l1 = Some x.
Proof. apply list_lookup_middle. by rewrite length_fmap. Qed.

Lemma insert_fmap_middle f (g : A → B) l1 x y l2 :
  <[length l1:=y]> ((f <$> l1) ++ x :: (g <$> l2))
  = (f <$> l1) ++ y :: (g <$> l2).
Proof.
  rewrite insert_app_r_alt by (by rewrite length_fmap).
  by rewrite length_fmap, Nat.sub_diag.
Qed.

Lemma count_if_app (p : A → bool) l1 l2 :
  count_if p (l1 ++ l2) = count_if p l1 + count_if p l2.
Proof. induction l1 as [|x l1 IH]; simpl; [done | rewrite IH; lia]. Qed.

Lemma count_if_le (p : A → bool) l : count_if p l ≤ length l.
Proof. induction l as [|x l IH]; simpl; [done | destruct (p x); lia]. Qed.
End ListFacts.

(** ** The loop body on a column *)

Lemma frame_at_snoc pre c post j vals :
  frame_at (pre ++ [c]) post j vals
  = Frame ((pre ++ c :: post).*2)
          (((λ c, drop (S j) c.1) <$> pre) ++ drop (S j) c.1
             :: ((λ c, drop j c.1) <$> post))
          (length pre + S (length post))
          (count_if (exhausted (S j)) pre
           + ((if exhausted (S j) c then 1 else 0)
              + count_if (exhausted j) post))
          ((exhausted (S j) <$> pre) ++ exhausted (S j) c
             :: (exhausted j <$> post))
          j vals.
Proof.
  unfold frame_at.
  rewrite !fmap_app, <- !app_assoc, count_if_app, length_app; simpl.
  f_equal; lia.
Qed.

Lemma lookup_defaults (pre : list col) (c : col) (post : list col) :
  (pre ++ c :: post).*2 !! length pre = Some c.2.
Proof. rewrite fmap_app, fmap_cons. apply lookup_fmap_middle. Qed.

(** The row yielded last holds, for a column that is empty by now, what
    [fill] says. *)
Lemma previous_cell (pre : list col) (c : col) (post : list col) j :
  c.1 !! S j = None →
  c.2 = VPrevious →
  row_at (pre ++ c :: post) j !! length pre = Some (fill c).
Proof.
  intros Hj Hd. unfold row_at.
  rewrite fmap_app, fmap_cons, lookup_fmap_middle.
  f_equal. unfold cell, fill. rewrite Hd.
  destruct (c.1 !! j) as [x|] eqn:Hx; [|done]. simpl.
  apply lookup_ge_None_1 in Hj. apply lookup_lt_Some in Hx as Hlt.
  rewrite last_lookup.
  replace (pred (length c.1)) with j by lia. by rewrite Hx.
Qed.

Lemma exhausted_spec j (c : col) : exhausted j c = true ↔ length c.1 < j.
Proof. unfold exhausted. apply Nat.ltb_lt. Qed.

Lemma exhausted_false j (c : col) : exhausted j c = false ↔ j ≤ length c.1.
Proof. unfold exhausted. apply Nat.ltb_ge. Qed.

(** A column that was found empty by an earlier request changes nothing in
    the frame. *)
Lemma frame_at_stale pre c post j vals :
  exhausted j c = true →
  frame_at pre (c :: post) j vals = frame_at (pre ++ [c]) post j vals.
Proof.
  intros He. rewrite frame_at_snoc. unfold frame_at. simpl.
  assert (exhausted (S j) c = true) as He'.
  { apply exhausted_spec. apply exhausted_spec in He. lia. }
  apply exhausted_spec in He as Hlt.
  rewrite He, He', !drop_ge by lia.
  f_equal; rewrite ?length_app; simpl; lia.
Qed.

Lemma fill_column_at (pre : list col) (c : col) (post : list col) j fr :
  defaults fr = (pre ++ c :: post).*2 →
  c.1 !! j = None →
  fill_column (prev_at (pre ++ c :: post) j) (length pre) fr
  = match c.2 with
    | VExc e => Throw (gen_raise e) fr
    | _ => Normal (append_value (fill c) fr)
    end.
Proof.
  intros Hd Hj. unfold fill_column. rewrite Hd, lookup_defaults.
  destruct (c.2) eqn:Hc; try done; try (unfold fill; by rewrite Hc).
  destruct j as [|j]; simpl.
  - unfold fill. rewrite Hc. by destruct (c.1).
  - by rewrite previous_cell.
Qed.

Lemma column_at pre c post j vals :
  column (prev_at (pre ++ c :: post) j) (length pre)
         (frame_at pre (c :: post) j vals)
  = match verdict_at j c with
    | Gives v => Normal (frame_at (pre ++ [c]) post j (vals ++ [v]))
    | Stops => Return (frame_at (pre ++ [c]) post j vals)
    | Fails e => Throw e (frame_at (pre ++ [c]) post j vals)
    end.
Proof.
  unfold column.
  replace (stopped (frame_at pre (c :: post) j vals) !! length pre)
    with (Some (exhausted j c))
    by (symmetry; apply lookup_fmap_middle).
  destruct (exhausted j c) eqn:He.
  - (* stopped by an earlier request *)
    apply exhausted_spec in He as Hlt.
    assert (c.1 !! j = None) as Hj by (apply lookup_ge_None_2; lia).
    rewrite fill_column_at by done.
    rewrite frame_at_stale by done.
    unfold verdict_at. rewrite Hj.
    assert ((length c.1 =? j) = false) as -> by (apply Nat.eqb_neq; lia).
    destruct (c.2) eqn:Hc; try done.
    unfold fill. by rewrite Hc.
  - apply exhausted_false in He as Hle.
    replace (items (frame_at pre (c :: post) j vals) !! length pre)
      with (Some (drop j c.1))
      by (symmetry; apply lookup_fmap_middle).
    unfold verdict_at.
    destruct (c.1 !! j) as [x|] eqn:Hj.
    + (* the iterator gives its next element *)
      rewrite (drop_S _ _ _ Hj).
      apply lookup_lt_Some in Hj as Hlt.
      rewrite frame_at_snoc. unfold append_value, advance_item, frame_at.
      simpl. rewrite (drop_S _ _ _ Hj), insert_fmap_middle.
      assert (exhausted (S j) c = false) as ->
        by (apply exhausted_false; lia).
      rewrite He. done.
    + (* the iterator is found empty now *)
      apply lookup_ge_None_1 in Hj as Hge.
      assert (length c.1 = j) as Hlen by lia.
      rewrite drop_ge by lia.
      set (fr' := mark_stopped (length pre) (frame_at pre (c :: post) j vals)).
      assert (fr' = frame_at (pre ++ [c]) post j vals) as Hfr.
      { subst fr'. rewrite frame_at_snoc. unfold mark_stopped, frame_at.
        simpl. rewrite insert_fmap_middle, He, !drop_ge by lia.
        assert (exhausted (S j) c = true) as ->
          by (apply exhausted_spec; lia).
        f_equal. simpl. lia. }
      assert (defaults fr' = (pre ++ c :: post).*2) as Hd by done.
      rewrite Hd, lookup_defaults.
      assert ((length c.1 =? j) = true) as -> by (by apply Nat.eqb_eq).
      destruct (c.2) eqn:Hc;
        rewrite ?fill_column_at, ?Hc by (done || by apply lookup_ge_None_2);
        rewrite Hfr; try done; unfold fill; by rewrite Hc.
Qed.

(** ** The loop, column by column *)

Lemma for_loop_at post : ∀ pre j vals,
  for_loop (prev_at (pre ++ post) j) (seq (length pre) (length post))
           (frame_at pre post j vals)
  = loop_at j pre post vals.
Proof.
  induction post as [|c post IH]; intros pre j vals; [done|].
  cbn [length seq for_loop loop_at]. rewrite column_at.
  destruct (verdict_at j c); try done.
  specialize (IH (pre ++ [c]) j (vals ++ [v])).
  by rewrite <- app_assoc, length_app, Nat.add_1_r in IH.
Qed.

Lemma verdict_gives j c v : verdict_at j c = Gives v → v = cell j c.
Proof.
  unfold verdict_at, cell, fill.
  destruct (c.1 !! j); simpl; [congruence|].
  destruct (c.2); try congruence.
  destruct (length c.1 =? j); congruence.
Qed.

Lemma first_halt_not_gives j cols v : first_halt j cols ≠ Some (Gives v).
Proof.
  induction cols as [|c cols IH]; simpl; [done|].
  destruct (verdict_at j c); done.
Qed.

Lemma loop_at_normal post : ∀ j pre vals,
  first_halt j post = None →
  loop_at j pre post vals
  = Normal (frame_at (pre ++ post) [] j (vals ++ row_at post j)).
Proof.
  induction post as [|c post IH]; intros j pre vals Hh; simpl in *.
  - by rewrite !app_nil_r.
  - destruct (verdict_at j c) eqn:Hv; try done.
    rewrite IH by done. apply verdict_gives in Hv as ->.
    by rewrite <- !app_assoc.
Qed.

Lemma loop_at_stops post : ∀ j pre vals,
  first_halt j post = Some Stops →
  ∃ fr, loop_at j pre post vals = Return fr.
Proof.
  induction post as [|c post IH]; intros j pre vals Hh; simpl in *; [done|].
  destruct (verdict_at j c); try done; eauto.
Qed.

Lemma loop_at_fails post : ∀ j pre vals e,
  first_halt j post = Some (Fails e) →
  ∃ fr, loop_at j pre post vals = Throw e fr.
Proof.
  induction post as [|c post IH]; intros j pre vals e Hh; simpl in *; [done|].
  destruct (verdict_at j c); try done; [eauto|].
  injection Hh as ->. eauto.
Qed.

(** ** The checks before the first loop *)

Lemma frame_at_start (cols : list col) :
  frame_at [] cols 0 []
  = Frame (cols.*2) (cols.*1) (length cols) 0
          (replicate (length cols) false) 0 [].
Proof.
  unfold frame_at. rewrite !fmap_nil. cbn [app count_if length Nat.add].
  assert (((λ c : col, drop 0 c.1) <$> cols) = cols.*1) as ->
    by (by apply list_fmap_ext).
  assert (count_if (exhausted 0) cols = 0) as ->
    by (induction cols as [|c cols IH]; simpl; [done | by rewrite IH]).
  assert ((exhausted 0 <$> cols) = replicate (length cols) false) as ->
    by (induction cols as [|c cols IH]; [done | by rewrite fmap_cons, IH]).
  done.
Qed.

Lemma start_valid iterables dflt :
  valid iterables dflt = true →
  start iterables dflt = inr (frame_at [] (columns iterables dflt) 0 []).
Proof.
  unfold valid, start, columns. fold (given_defaults iterables dflt).
  intros [Hs Hl]%andb_true_iff. rewrite Hs, Hl. simpl.
  apply Nat.eqb_eq in Hl.
  rewrite frame_at_start, fst_zip, snd_zip, length_zip, length_fmap
    by (rewrite length_fmap; lia).
  by rewrite Hl, Nat.min_id.
Qed.

Lemma start_invalid iterables dflt :
  valid iterables dflt = false →
  ∃ msg, start iterables dflt = inl (ValueError msg).
Proof.
  unfold valid, start. fold (given_defaults iterables dflt).
  intros [->| ->]%andb_false_iff; simpl; [eauto|].
  destruct (is_sequence _); simpl; eauto.
Qed.

(** ** The requests over time *)

Lemma frame_at_next_row cols j vals :
  next_row (frame_at cols [] j vals) = frame_at [] cols (S j) [].
Proof.
  unfold next_row, frame_at. simpl. rewrite !app_nil_r.
  f_equal; lia.
Qed.

Lemma while_head_at cols j vals :
  while_head (frame_at cols [] j vals)
  = if count_if (exhausted (S j)) cols <? length cols
    then (Yield vals, Suspended (frame_at cols [] j vals))
    else (StopIter, Closed ((λ c : col, drop (S j) c.1) <$> cols)).
Proof.
  unfold while_head, frame_at.
  cbn [n_stopped n_items values items length count_if fmap list_fmap].
  by rewrite !Nat.add_0_r, !app_nil_r.
Qed.

Section Requests.
Variables (iterables : list value) (dflt : value).
Hypothesis Hvalid : valid iterables dflt = true.

Local Abbreviation cols := (columns iterables dflt).
Local Abbreviation gen := (gen_at iterables dflt).

Lemma next_loop_at j : next (gen j) = after_loop (loop_at j [] cols []).
Proof.
  destruct j as [|j]; simpl.
  - rewrite start_valid by done.
    by rewrite <- (for_loop_at cols [] 0 []).
  - rewrite frame_at_next_row, Nat.add_0_r.
    by rewrite <- (for_loop_at cols [] (S j) []).
Qed.

Lemma next_yield j row :
  outcome_at cols j = Yield row →
  next (gen j) = (Yield row, gen (S j)).
Proof.
  unfold outcome_at. rewrite next_loop_at.
  destruct (first_halt j cols) as [[]|] eqn:Hh; try done.
  rewrite loop_at_normal by done. cbn [after_loop app].
  rewrite while_head_at.
  destruct (_ <? _); [|done]. by intros [= <-].
Qed.

Lemma next_close j :
  is_yield (outcome_at cols j) = false →
  ∃ cursors, next (gen j) = (outcome_at cols j, Closed cursors).
Proof.
  unfold outcome_at. rewrite next_loop_at.
  destruct (first_halt j cols) as [[]|] eqn:Hh.
  - by apply first_halt_not_gives in Hh.
  - destruct (loop_at_stops cols j [] [] Hh) as [fr ->]. simpl. eauto.
  - destruct (loop_at_fails cols j [] [] e Hh) as [fr ->]. simpl. eauto.
  - rewrite loop_at_normal by done. cbn [after_loop app].
    rewrite while_head_at.
    destruct (_ <? _); [done|]. eauto.
Qed.

Lemma outcome_at_yield j row :
  outcome_at cols j = Yield row →
  row = row_at cols j ∧ first_halt j cols = None
  ∧ count_if (exhausted (S j)) cols < length cols.
Proof.
  unfold outcome_at.
  destruct (first_halt j cols) as [[]|]; try done.
  destruct (_ <? _) eqn:Hlt; [|done].
  apply Nat.ltb_lt in Hlt. by intros [= <-].
Qed.

Lemma run_step fuel j :
  run (S fuel) (gen j)
  = match outcome_at cols j with
    | Yield row => let (rows, e) := run fuel (gen (S j)) in (row :: rows, e)
    | StopIter => ([], Finished)
    | Raise e => ([], Raised e)
    end.
Proof.
  cbn [run].
  destruct (outcome_at cols j) as [row| |e] eqn:Ho.
  - by rewrite (next_yield j row Ho).
  - destruct (next_close j) as [c Hc]; [by rewrite Ho|].
    by rewrite Hc, Ho.
  - destruct (next_close j) as [c Hc]; [by rewrite Ho|].
    by rewrite Hc, Ho.
Qed.

(** Every row of a run is the row the columns determine. *)
Lemma run_rows fuel : ∀ j rows e,
  run fuel (gen j) = (rows, e) →
  ∀ t row, rows !! t = Some row → outcome_at cols (j + t) = Yield row.
Proof.
  induction fuel as [|fuel IH]; intros j rows e Hrun t row Ht.
  { injection Hrun as <- <-. done. }
  rewrite run_step in Hrun.
  destruct (outcome_at cols j) as [row0| |e0] eqn:Ho;
    [|by injection Hrun as <- <-..].
  destruct (run fuel (gen (S j))) as [rows' e'] eqn:Hrun'.
  injection Hrun as <- <-.
  destruct t as [|t]; simpl in Ht.
  - injection Ht as <-. by rewrite Nat.add_0_r.
  - rewrite Nat.add_succ_r. by apply (IH (S j) rows' e').
Qed.

(** The rows up to the first request that does not yield. *)
Lemma run_until fuel : ∀ j n,
  (∀ t, t < n → is_yield (outcome_at cols (j + t)) = true) →
  is_yield (outcome_at cols (j + n)) = false →
  n < fuel →
  run fuel (gen j)
  = (row_at cols <$> seq j n, ending_of (outcome_at cols (j + n))).
Proof.
  induction fuel as [|fuel IH]; intros j n Hy Hn Hf; [lia|].
  rewrite run_step. destruct n as [|n].
  - rewrite Nat.add_0_r in *.
    by destruct (outcome_at cols j).
  - specialize (Hy 0 ltac:(lia)) as Hy0. rewrite Nat.add_0_r in Hy0.
    destruct (outcome_at cols j) as [row| |] eqn:Ho; try done.
    apply outcome_at_yield in Ho as (-> & _ & _).
    rewrite (IH (S j) n).
    + by rewrite Nat.add_succ_r.
    + intros t Ht. specialize (Hy (S t) ltac:(lia)).
      by rewrite Nat.add_succ_r in Hy.
    + by rewrite Nat.add_succ_r in Hn.
    + lia.
Qed.

Lemma advance_closed k cursors : advance k (Closed cursors) = Closed cursors.
Proof. induction k as [|k IH]; simpl; done. Qed.

(** The generator is either where the rows yielded so far put it, or
    closed. *)
Lemma advance_at k : ∀ j,
  (advance k (gen j) = gen (j + k)
   ∧ ∀ t, t < k → is_yield (outcome_at cols (j + t)) = true)
  ∨ ∃ cursors, advance k (gen j) = Closed cursors.
Proof.
  induction k as [|k IH]; intros j.
  { left. rewrite Nat.add_0_r. split; [done | lia]. }
  cbn [advance].
  destruct (is_yield (outcome_at cols j)) eqn:Hy.
  - destruct (outcome_at cols j) as [row| |] eqn:Ho; try done.
    rewrite (next_yield j row Ho). cbn [snd].
    destruct (IH (S j)) as [[Ha Hall]|Hc]; [left | by right].
    rewrite Nat.add_succ_r. split; [done|].
    intros [|t] Ht.
    + by rewrite Nat.add_0_r, Ho.
    + rewrite Nat.add_succ_r. apply Hall. lia.
  - destruct (next_close j Hy) as [c ->]. cbn [snd].
    right. exists c. apply advance_closed.
Qed.
End Requests.

(** ** The loop on any frame *)

Lemma next_loop_entry g previous fr :
  loop_entry g = Some (previous, fr) →
  next g = after_loop (for_loop previous (seq 0 (n_items fr)) fr).
Proof.
  destruct g as [its d|fr0|c]; simpl; [|by intros [= <- <-]|done].
  destruct (start its d); [done | by intros [= <- <-]].
Qed.

Lemma for_loop_app previous l1 l2 fr :
  for_loop previous (l1 ++ l2) fr
  = match for_loop previous l1 fr with
    | Normal fr' => for_loop previous l2 fr'
    | halted => halted
    end.
Proof.
  revert fr. induction l1 as [|i l1 IH]; intros fr; simpl; [done|].
  by destruct (column previous i fr).
Qed.

Lemma seq_split_at k n : k < n → seq 0 n = seq 0 k ++ k :: seq (S k) (n - S k).
Proof.
  intros Hk. replace n with (k + S (n - S k)) at 1 by lia.
  by rewrite seq_app.
Qed.

(** What the body of the loop leaves alone. *)
Lemma fill_column_frame previous i fr fr' :
  fill_column previous i fr = Normal fr' →
  items fr' = items fr ∧ defaults fr' = defaults fr
  ∧ n_items fr' = n_items fr.
Proof.
  unfold fill_column. intros H.
  repeat match type of H with
         | match ?x with _ => _ end = _ => destruct x
         end; try done; by injection H as <-.
Qed.

Lemma column_frame previous i fr fr' :
  column previous i fr = Normal fr' →
  (∀ i', i' ≠ i → items fr' !! i' = items fr !! i')
  ∧ defaults fr' = defaults fr ∧ n_items fr' = n_items fr.
Proof.
  unfold column. intros H.
  destruct (stopped fr !! i) as [[]|]; [|destruct (items fr !! i) as [[|x r]|]|];
    try done.
  - by apply fill_column_frame in H as (-> & -> & ->).
  - cbn [defaults mark_stopped] in H.
    destruct (defaults fr !! i) as [d|]; [|done].
    assert (fill_column previous i (mark_stopped i fr) = Normal fr') as H'
      by (by destruct d).
    by apply fill_column_frame in H' as (-> & -> & ->).
  - injection H as <-. simpl. split; [|done].
    intros i' Hi'. by apply list_lookup_insert_ne.
Qed.

Lemma for_loop_frame previous l : ∀ fr fr',
  for_loop previous l fr = Normal fr' →
  (∀ i', i' ∉ l → items fr' !! i' = items fr !! i')
  ∧ defaults fr' = defaults fr ∧ n_items fr' = n_items fr.
Proof.
  induction l as [|i l IH]; intros fr fr' H; simpl in H.
  { by injection H as <-. }
  destruct (column previous i fr) as [fr1| |] eqn:Hc; try done.
  apply column_frame in Hc as (Hi1 & Hd1 & Hn1).
  apply IH in H as (Hi & -> & ->). split; [|done].
  intros i' [Hne Hnin]%not_elem_of_cons. by rewrite Hi, Hi1.
Qed.

(** ** Rows of a run, column by column *)

Lemma columns_lookup iterables dflt i it d :
  iterables !! i = Some it →
  elements (given_defaults iterables dflt) !! i = Some d →
  columns iterables dflt !! i = Some (as_iter it, d).
Proof.
  intros Hi Hd. unfold columns. apply lookup_zip_with_Some.
  exists (as_iter it), d. by rewrite list_lookup_fmap, Hi.
Qed.

Lemma columns_lookup_inv iterables dflt i c :
  columns iterables dflt !! i = Some c →
  ∃ it, iterables !! i = Some it ∧ c.1 = as_iter it
        ∧ elements (given_defaults iterables dflt) !! i = Some c.2.
Proof.
  unfold columns. intros (s & d & -> & Hs & Hd)%lookup_zip_with_Some.
  rewrite list_lookup_fmap in Hs.
  destruct (iterables !! i) as [it|]; [|done].
  injection Hs as <-. eauto.
Qed.

Lemma valid_length iterables dflt :
  valid iterables dflt = true →
  length (elements (given_defaults iterables dflt)) = length iterables.
Proof. unfold valid. intros [_ Hl]%andb_true_iff. by apply Nat.eqb_eq. Qed.

Lemma first_halt_none j cols i (c : col) :
  first_halt j cols = None →
  cols !! i = Some c →
  verdict_at j c = Gives (cell j c).
Proof.
  revert i. induction cols as [|c0 cols IH]; intros i Hh Hi; [done|].
  simpl in Hh. destruct (verdict_at j c0) as [v| |] eqn:Hv; try done.
  destruct i as [|i]; simpl in Hi.
  - injection Hi as <-. by rewrite (verdict_gives _ _ _ Hv) in Hv.
  - by apply (IH i).
Qed.

Lemma run_invalid fuel iterables dflt :
  valid iterables dflt = false →
  (run fuel (Created iterables dflt)).1 = [].
Proof.
  intros Hv. destruct fuel as [|fuel]; [done|]. simpl.
  by destruct (start_invalid _ _ Hv) as [msg ->].
Qed.

(** Row [t] of a run comes from a request that met no halting column, and
    every earlier row was yielded as well. *)
Lemma run_row_at fuel iterables dflt rows e t row :
  run fuel (Created iterables dflt) = (rows, e) →
  rows !! t = Some row →
  valid iterables dflt = true
  ∧ row = row_at (columns iterables dflt) t
  ∧ ∀ t', t' ≤ t → first_halt t' (columns iterables dflt) = None.
Proof.
  intros Hrun Ht.
  destruct (valid iterables dflt) eqn:Hv.
  2:{ pose proof (run_invalid fuel _ _ Hv) as Hr.
      rewrite Hrun in Hr. simpl in Hr. by subst rows. }
  split; [done|].
  pose proof (run_rows iterables dflt Hv fuel 0 rows e Hrun) as Hrows.
  split.
  - by apply Hrows, outcome_at_yield in Ht as (-> & _).
  - intros t' Ht'.
    destruct (lookup_lt_is_Some_2 rows t') as [row' Hrow'].
    { apply lookup_lt_Some in Ht. lia. }
    by apply Hrows, outcome_at_yield in Hrow' as (_ & ? & _).
Qed.

Lemma row_at_lookup cols j i (c : col) :
  cols !! i = Some c → row_at cols j !! i = Some (cell j c).
Proof. intros Hc. unfold row_at. by rewrite list_lookup_fmap, Hc. Qed.

(** A column whose default is [StopIteration] or an exception has a real
    element in every row that is yielded. *)
Lemma halting_column_live cols (c : col) i t :
  cols !! i = Some c →
  (c.2 = VStopIteration ∨ ∃ e, c.2 = VExc e) →
  (∀ t', t' ≤ t → first_halt t' cols = None) →
  ∃ x, c.1 !! t = Some x.
Proof.
  intros Hc Hd Hall.
  destruct (decide (t < length c.1)) as [Hlt|Hge].
  { by apply lookup_lt_is_Some_2. }
  assert (length c.1 ≤ t) as Hle by lia.
  pose proof (first_halt_none (length c.1) cols i c (Hall _ Hle) Hc) as Hv.
  unfold verdict_at in Hv.
  rewrite (lookup_ge_None_2 c.1 (length c.1)) in Hv by lia.
  destruct Hd as [Hd|[e Hd]]; rewrite Hd in Hv; [|done].
  by rewrite Nat.eqb_refl in Hv.
Qed.

Lemma next_outcome iterables dflt j :
  valid iterables dflt = true →
  (next (gen_at iterables dflt j)).1 = outcome_at (columns iterables dflt) j.
Proof.
  intros Hv.
  destruct (is_yield (outcome_at (columns iterables dflt) j)) eqn:Hy.
  - destruct (outcome_at (columns iterables dflt) j) as [row| |] eqn:Ho;
      try done.
    by rewrite (next_yield _ _ Hv j row Ho).
  - by destruct (next_close _ _ Hv j Hy) as [c ->].
Qed.

Lemma start_scalar pre v post dflt :
  is_iterable v = false →
  start (pre ++ v :: post) dflt = start (pre ++ VSeq [v] :: post) dflt.
Proof.
  intros Hv. unfold start.
  rewrite !fmap_app, !fmap_cons, !length_app. cbn [length].
  unfold as_iter at 2 5. by rewrite Hv.
Qed.

Lemma valid_false iterables dflt :
  dflt ≠ VNone →
  is_sequence dflt = false ∨ length (elements dflt) ≠ length iterables →
  valid iterables dflt = false.
Proof.
  intros Hd H. unfold valid.
  assert (given_defaults iterables dflt = dflt) as -> by (by destruct dflt).
  apply andb_false_iff.
  destruct H as [H|H]; [by left | right; by apply Nat.eqb_neq].
Qed.

Lemma first_halt_fails j cols e :
  first_halt j cols = Some (Fails e) →
  ∃ i (c : col) e', cols !! i = Some c ∧ c.2 = VExc e' ∧ e = gen_raise e'.
Proof.
  induction cols as [|c cols IH]; simpl; [done|].
  destruct (verdict_at j c) as [v| |e0] eqn:Hv; try done.
  - intros (i & c' & e' & ? & ? & ?)%IH. by exists (S i), c', e'.
  - intros [= ->]. exists 0, c. unfold verdict_at in Hv.
    destruct (c.1 !! j); [done|].
    destruct (c.2) as [| | | | | | |e'] eqn:Hc; try done.
    + by destruct (length c.1 =? j).
    + injection Hv as <-. by exists e'.
Qed.

Lemma advance_S_r k g : advance (S k) g = (next (advance k g)).2.
Proof. revert g. induction k as [|k IH]; intros g; [done|]. apply IH. Qed.

Lemma advance_add k1 k2 g : advance (k1 + k2) g = advance k2 (advance k1 g).
Proof. revert g. induction k1 as [|k1 IH]; intros g; [done|]. apply IH. Qed.

Lemma next_after_close g k k' cursors :
  (next (advance k g)).2 = Closed cursors →
  k < k' →
  (next (advance k' g)).1 = StopIter.
Proof.
  intros Hc Hk. replace k' with (S k + (k' - S k)) by lia.
  by rewrite advance_add, advance_S_r, Hc, advance_closed.
Qed.

Lemma loop_entry_at iterables dflt j :
  valid iterables dflt = true →
  loop_entry (gen_at iterables dflt j)
  = Some (prev_at (columns iterables dflt) j,
          frame_at [] (columns iterables dflt) j []).
Proof.
  intros Hv. destruct j as [|j]; cbn [gen_at loop_entry prev_at].
  - by rewrite start_valid.
  - by rewrite frame_at_next_row.
Qed.

Lemma loop_entry_reachable iterables dflt m previous fr :
  loop_entry (advance m (Created iterables dflt)) = Some (previous, fr) →
  valid iterables dflt = true
  ∧ fr = frame_at [] (columns iterables dflt) m [].
Proof.
  intros He. destruct (valid iterables dflt) eqn:Hv.
  - split; [done|].
    destruct (advance_at iterables dflt Hv m 0) as [[Ha _]|[c Hc]].
    + change (gen_at iterables dflt 0) with (Created iterables dflt) in Ha.
      rewrite Ha, loop_entry_at in He by done. by injection He as _ <-.
    + change (gen_at iterables dflt 0) with (Created iterables dflt) in Hc.
      by rewrite Hc in He.
  - destruct (start_invalid _ _ Hv) as [msg Hs].
    destruct m as [|m].
    + cbn [advance loop_entry] in He. by rewrite Hs in He.
    + cbn [advance next] in He. rewrite Hs in He. cbn [snd] in He.
      by rewrite advance_closed in He.
Qed.

Lemma column_stop previous k fr :
  stopped fr !! k = Some false →
  items fr !! k = Some [] →
  defaults fr !! k = Some VStopIteration →
  column previous k fr = Return (mark_stopped k fr).
Proof. intros Hs Hi Hd. unfold column. by rewrite Hs, Hi; cbn; rewrite Hd. Qed.

Lemma column_raise previous k fr e :
  stopped fr !! k = Some true
  ∨ (stopped fr !! k = Some false ∧ items fr !! k = Some []) →
  defaults fr !! k = Some (VExc e) →
  ∃ fr', column previous k fr = Throw (gen_raise e) fr'.
Proof.
  intros [Hs|[Hs Hi]] Hd; unfold column, fill_column.
  - rewrite Hs, Hd. eauto.
  - rewrite Hs, Hi. cbn. rewrite Hd. eauto.
Qed.

(** A column with default [StopIteration] has a real element in every
    yielded row, and so has a column whose default is an exception. *)
Lemma halting_column_rows fuel iterables dflt rows e t row i :
  run fuel (Created iterables dflt) = (rows, e) →
  rows !! t = Some row →
  (elements (given_defaults iterables dflt) !! i = Some VStopIteration
   ∨ ∃ e', elements (given_defaults iterables dflt) !! i = Some (VExc e')) →
  row = row_at (columns iterables dflt) t
  ∧ ∃ it x, iterables !! i = Some it ∧ as_iter it !! t = Some x
            ∧ row !! i = Some x.
Proof.
  intros Hrun Ht Hd.
  destruct (run_row_at _ _ _ _ _ _ _ Hrun Ht) as (Hv & -> & Hall).
  split; [done|].
  destruct (lookup_lt_is_Some_2 iterables i) as [it Hit].
  { rewrite <- (valid_length iterables dflt) by done.
    destruct Hd as [Hd|[e' Hd]];
      by apply lookup_lt_Some in Hd. }
  destruct (lookup_lt_is_Some_2 (elements (given_defaults iterables dflt)) i)
    as [d Hd'].
  { rewrite valid_length by done. by apply lookup_lt_Some in Hit. }
  pose proof (columns_lookup _ _ _ _ _ Hit Hd') as Hc.
  destruct (halting_column_live _ (as_iter it, d) i t Hc) as [x Hx];
    [|done|].
  { simpl. rewrite Hd' in Hd. destruct Hd as [[= ->]|[e' [= ->]]]; eauto. }
  exists it, x. repeat split; [done..|].
  rewrite (row_at_lookup _ _ _ _ Hc). unfold cell. simpl in *. by rewrite Hx.
Qed.

Lemma gen_raise_other e : (∀ msg, e ≠ StopIterationInst msg) → gen_raise e = e.
Proof. intros He. destruct e; try done. by destruct (He msg). Qed.

(** ** One default for every column *)

Lemma zip_replicate {A B} (l : list A) (y : B) :
  zip l (replicate (length l) y) = (λ x, (x, y)) <$> l.
Proof. induction l as [|x l IH]; simpl; [done | by rewrite IH]. Qed.

Lemma columns_with_default iterables dflt d :
  given_defaults iterables dflt = VSeq (replicate (length iterables) d) →
  valid iterables dflt = true
  ∧ columns iterables dflt = with_default d (as_iter <$> iterables).
Proof.
  intros Hg. unfold valid, columns, with_default. rewrite Hg. simpl. split.
  - rewrite length_replicate. apply Nat.eqb_refl.
  - rewrite <- (length_fmap as_iter). apply zip_replicate.
Qed.

Lemma min_len_le seqs : Forall (λ s, min_len seqs ≤ length s) seqs.
Proof.
  destruct seqs as [|s rest]; [done|]. simpl.
  revert s. induction rest as [|s' rest IH]; intros s; simpl.
  - by constructor.
  - specialize (IH s). apply Forall_cons in IH as [H1 H2]. simpl in H1.
    generalize dependent (foldr (λ s'0 m, length s'0 `min` m) (length s) rest).
    intros M H1 H2.
    apply Forall_cons; split; [cbn beta; lia|].
    apply Forall_cons; split; [cbn beta; lia|].
    eapply Forall_impl; [exact H2|]. cbn beta. intros; lia.
Qed.

Lemma min_len_reached seqs :
  seqs ≠ [] → Exists (λ s, length s = min_len seqs) seqs.
Proof.
  destruct seqs as [|s rest]; [done|]. intros _. simpl.
  revert s. induction rest as [|s' rest IH]; intros s; simpl.
  - by left.
  - specialize (IH s).
    destruct (decide (length s' ≤ foldr (λ s'0 m, length s'0 `min` m)
                                        (length s) rest)) as [Hle|Hgt].
    + right. left. lia.
    + apply Exists_cons in IH as [H|H].
      * left. lia.
      * right. right. eapply Exists_impl; [exact H|]. cbn beta. intros; lia.
Qed.

Lemma max_len_lt seqs t : t < max_len seqs ↔ Exists (λ s, t < length s) seqs.
Proof.
  induction seqs as [|s seqs IH]; simpl.
  - rewrite Exists_nil. lia.
  - rewrite Exists_cons, <- IH. lia.
Qed.

Lemma min_len_budget iterables :
  min_len (as_iter <$> iterables) < budget iterables.
Proof.
  unfold budget. destruct iterables as [|it rest]; [simpl; lia|].
  pose proof (min_len_le (as_iter <$> it :: rest)) as H.
  apply Forall_cons in H as [H _]. cbn beta in H.
  assert (it ∈ it :: rest) as Hin by (by left).
  apply (sum_list_with_in _ (λ i, length (as_iter i))) in Hin.
  cbn beta in Hin. lia.
Qed.

Lemma max_len_budget iterables :
  max_len (as_iter <$> iterables) < budget iterables.
Proof.
  unfold budget.
  destruct (max_len (as_iter <$> iterables)) as [|n] eqn:Hn; [lia|].
  assert (n < max_len (as_iter <$> iterables)) as Hlt by lia.
  apply max_len_lt, Exists_exists in Hlt as (s & Hin & Hlt).
  apply list_elem_of_fmap in Hin as (it & -> & Hin).
  apply (sum_list_with_in _ (λ i, length (as_iter i))) in Hin.
  cbn beta in Hin. lia.
Qed.

Lemma count_if_lt {A} (p : A → bool) (l : list A) :
  count_if p l < length l ↔ Exists (λ x, p x = false) l.
Proof.
  induction l as [|x l IH]; simpl.
  - rewrite Exists_nil. lia.
  - rewrite Exists_cons, <- IH. pose proof (count_if_le p l).
    destruct (p x); split; (lia || naive_solver lia).
Qed.

Lemma live_with_default d seqs t :
  count_if (exhausted (S t)) (with_default d seqs) < length (with_default d seqs)
  ↔ Exists (λ s, t < length s) seqs.
Proof.
  unfold with_default.
  induction seqs as [|s seqs IH].
  { rewrite Exists_nil. simpl. lia. }
  rewrite Exists_cons, <- IH, fmap_cons. cbn [count_if length].
  pose proof (count_if_le (exhausted (S t)) ((λ s, (s, d)) <$> seqs)).
  destruct (exhausted (S t) (s, d)) eqn:He;
    [apply exhausted_spec in He | apply exhausted_false in He];
    simpl in He; lia.
Qed.

Lemma first_halt_live t d seqs :
  Forall (λ s, t < length s) seqs →
  first_halt t (with_default d seqs) = None.
Proof.
  induction 1 as [|s seqs Hs _ IH]; [done|]. simpl. unfold verdict_at. simpl.
  by destruct (lookup_lt_is_Some_2 s t Hs) as [x ->].
Qed.

Lemma row_at_live t d seqs :
  Forall (λ s, t < length s) seqs →
  row_at (with_default d seqs) t = (λ s, default VNone (s !! t)) <$> seqs.
Proof.
  induction 1 as [|s seqs Hs _ IH]; [done|].
  unfold row_at, with_default in *. rewrite !fmap_cons, IH. f_equal.
  unfold cell. simpl. by destruct (lookup_lt_is_Some_2 s t Hs) as [x ->].
Qed.

Lemma first_halt_stop t seqs :
  Forall (λ s, t ≤ length s) seqs →
  Exists (λ s, length s = t) seqs →
  first_halt t (with_default VStopIteration seqs) = Some Stops.
Proof.
  induction 1 as [|s seqs Hs _ IH]; [by intros ?%Exists_nil|].
  intros Hex. simpl. unfold verdict_at. simpl.
  destruct (s !! t) as [x|] eqn:Hx.
  - apply lookup_lt_Some in Hx. apply IH.
    apply Exists_cons in Hex as [?|?]; [lia | done].
  - apply lookup_ge_None_1 in Hx.
    by assert ((length s =? t) = true) as -> by (apply Nat.eqb_eq; lia).
Qed.

Lemma min_len_live seqs t :
  t < min_len seqs → Forall (λ s, t < length s) seqs.
Proof.
  intros Ht. eapply Forall_impl; [apply min_len_le|]. cbn beta. intros; lia.
Qed.

Lemma all_stop_yield seqs t :
  t < min_len seqs →
  outcome_at (with_default VStopIteration seqs) t
  = Yield ((λ s, default VNone (s !! t)) <$> seqs).
Proof.
  intros Ht. pose proof (min_len_live _ _ Ht) as Hall.
  unfold outcome_at. rewrite first_halt_live, row_at_live by done.
  assert (count_if (exhausted (S t)) (with_default VStopIteration seqs)
          < length (with_default VStopIteration seqs)) as Hlt.
  { apply live_with_default. destruct seqs as [|s seqs]; [simpl in Ht; lia|].
    apply Forall_cons in Hall as [? _]. by left. }
  by apply Nat.ltb_lt in Hlt as ->.
Qed.

Lemma all_stop_end seqs :
  outcome_at (with_default VStopIteration seqs) (min_len seqs) = StopIter.
Proof.
  unfold outcome_at. destruct seqs as [|s rest] eqn:Hs; [done|].
  rewrite <- Hs. rewrite first_halt_stop; [done|apply min_len_le|].
  apply min_len_reached. by rewrite Hs.
Qed.

Lemma first_halt_previous t seqs :
  first_halt t (with_default VPrevious seqs) = None.
Proof.
  induction seqs as [|s seqs IH]; [done|]. simpl. unfold verdict_at. simpl.
  by destruct (s !! t).
Qed.

Lemma all_previous_outcome seqs t :
  outcome_at (with_default VPrevious seqs) t
  = if t <? max_len seqs
    then Yield (row_at (with_default VPrevious seqs) t)
    else StopIter.
Proof.
  unfold outcome_at. rewrite first_halt_previous.
  pose proof (live_with_default VPrevious seqs t) as Hlive.
  rewrite <- max_len_lt in Hlive.
  destruct (t <? max_len seqs) eqn:Ht.
  - apply Nat.ltb_lt in Ht. apply Hlive in Ht. by apply Nat.ltb_lt in Ht as ->.
  - apply Nat.ltb_ge in Ht.
    by assert ((count_if (exhausted (S t)) (with_default VPrevious seqs)
                <? length (with_default VPrevious seqs)) = false) as ->
      by (apply Nat.ltb_ge; lia).
Qed.

(** ** Every run ends *)

Lemma remaining_decreases cols j :
  count_if (exhausted (S j)) cols < length cols →
  remaining cols (S j) < remaining cols j.
Proof.
  assert (∀ l, remaining l (S j) ≤ remaining l j) as Hmono.
  { induction l as [|c l IH]; simpl; lia. }
  unfold remaining in *.
  induction cols as [|c cols IH]; simpl; [lia|].
  pose proof (Hmono cols) as Hle.
  pose proof (count_if_le (exhausted (S j)) cols) as Hcount.
  destruct (exhausted (S j) c) eqn:He;
    [apply exhausted_spec in He | apply exhausted_false in He]; lia.
Qed.

Lemma run_total iterables dflt fuel : ∀ j,
  valid iterables dflt = true →
  remaining (columns iterables dflt) j < fuel →
  (run fuel (gen_at iterables dflt j)).2 ≠ Unfinished.
Proof.
  induction fuel as [|fuel IH]; intros j Hv Hrem; [lia|].
  rewrite run_step by done.
  destruct (outcome_at (columns iterables dflt) j) as [row| |] eqn:Ho;
    [|done..].
  apply outcome_at_yield in Ho as (_ & _ & Hlive).
  apply remaining_decreases in Hlive.
  specialize (IH (S j) Hv ltac:(lia)).
  by destruct (run fuel (gen_at iterables dflt (S j))).
Qed.

Lemma remaining_start iterables dflt :
  valid iterables dflt = true →
  remaining (columns iterables dflt) 0 < budget iterables.
Proof.
  intros Hv. unfold remaining, budget, columns.
  pose proof (valid_length _ _ Hv) as Hlen. clear Hv.
  revert Hlen. generalize (elements (given_defaults iterables dflt)).
  induction iterables as [|it its IH]; intros [|d ds] Hlen; try done;
    [simpl; lia|].
  injection Hlen as Hlen. specialize (IH ds Hlen).
  rewrite fmap_cons. cbn [zip_with sum_list_with fst]. lia.
Qed.

(** The budget of [collect] is enough: it never gives up. *)
Lemma collect_total iterables dflt : (collect iterables dflt).2 ≠ Unfinished.
Proof.
  unfold collect. destruct (valid iterables dflt) eqn:Hv.
  - apply (run_total iterables dflt _ 0 Hv). by apply remaining_start.
  - unfold budget. cbn [run next].
    by destruct (start_invalid _ _ Hv) as [msg ->].
Qed.


(** ** The self-test and the docstring *)

(** The five cases of [test_ziplus], with the rows it expects. *)
Example selftest_defaults_omitted :
  collect [range10; reversed_range10; abcdef] VNone = (first_six, Finished).
Proof. by vm_compute. Qed.

Example selftest_all_previous :
  collect [range10; reversed_range10; abcdef]
          (VSeq (replicate 3 VPrevious))
  = (first_six ++ last_four, Finished).
Proof. by vm_compute. Qed.

Example selftest_stop_last :
  collect [range10; reversed_range10; abcdef]
          (VSeq [VPrevious; VNone; VStopIteration])
  = (first_six, Finished).
Proof. by vm_compute. Qed.

Example selftest_none_last :
  collect [range10; reversed_range10; abcdef]
          (VSeq [VPrevious; VStopIteration; VNone])
  = (first_six ++ [[VInt 6; VInt 3; VNone]; [VInt 7; VInt 2; VNone];
                   [VInt 8; VInt 1; VNone]; [VInt 9; VInt 0; VNone]],
     Finished).
Proof. by vm_compute. Qed.

Example selftest_exception_last :
  collect [range10; reversed_range10; abcdef]
          (VSeq [VPrevious; VStopIteration; VExc (IndexError "Oh no!")])
  = (first_six, Raised (IndexError "Oh no!")).
Proof. by vm_compute. Qed.

(** * The claims *)

(** C1 (counterexample): with the defaults (Previous, StopIteration,
    Previous) the three example columns give ten rows, not only the six
    rows [(0,9,a) .. (5,4,f)]: the column that stops the iteration is the
    second one, which has ten elements. *)
Lemma mixed_policy_not_six_rows :
  length (collect [range10; reversed_range10; abcdef]
                  (VSeq [VPrevious; VStopIteration; VPrevious])).1 = 10
  ∧ (collect [range10; reversed_range10; abcdef]
             (VSeq [VPrevious; VStopIteration; VPrevious])).1 ≠ first_six.
Proof. split; [by vm_compute | vm_compute; discriminate]. Qed.

(** C1 (amended): with the defaults (Previous, StopIteration, Previous)
    the columns [0..9], [9..0] and "abcdef" give exactly ten rows, the six
    rows (0,9,a) .. (5,4,f) followed by (6,3,f), (7,2,f), (8,1,f), (9,0,f),
    and the iteration then ends cleanly: the second column, whose default
    is StopIteration, is the one that ends it. *)
Theorem mixed_policy_ten_rows :
  collect [range10; reversed_range10; abcdef]
          (VSeq [VPrevious; VStopIteration; VPrevious])
  = (first_six ++ last_four, Finished).
Proof. by vm_compute. Qed.

(** C2 (counterexample): two defaults for three iterables.  Calling
    [ziplus] does not fail, it returns the generator; the ValueError only
    comes with the first request. *)
Lemma config_error_not_at_call :
  length (elements (VSeq [VPrevious; VNone]))
    ≠ length [range10; reversed_range10; abcdef]
  ∧ ziplus [range10; reversed_range10; abcdef] (VSeq [VPrevious; VNone])
    = inr (Created [range10; reversed_range10; abcdef]
                   (VSeq [VPrevious; VNone]))
  ∧ next (Created [range10; reversed_range10; abcdef]
                  (VSeq [VPrevious; VNone]))
    = (Raise (ValueError "Bad defaults length"), Closed []).
Proof. repeat split; by vm_compute. Qed.

(** C2 (amended): when defaults are given and their number differs from
    the number of iterables, or they are no Sequence, the call itself
    succeeds and the first request fails with a ValueError, before any
    iterable is consulted and before any row; every later request finds the
    generator finished.  Moreover, for any arguments, an exception raised by
    a request after the first one is never such a ValueError of the checks:
    it is the exception of a default (as a generator raises it). *)
Theorem config_error_at_first_request :
  (∀ iterables dflt,
     dflt ≠ VNone →
     is_sequence dflt = false ∨ length (elements dflt) ≠ length iterables →
     ziplus iterables dflt = inr (Created iterables dflt)
     ∧ (∃ msg, next (Created iterables dflt)
               = (Raise (ValueError msg), Closed []))
     ∧ (∀ k, 0 < k →
             (next (advance k (Created iterables dflt))).1 = StopIter))
  ∧ (∀ iterables dflt k e,
       0 < k →
       (next (advance k (Created iterables dflt))).1 = Raise e →
       ∃ i e', elements (given_defaults iterables dflt) !! i = Some (VExc e')
               ∧ e = gen_raise e').
Proof.
  split.
  - intros iterables dflt Hd Hbad.
    destruct (start_invalid _ _ (valid_false _ _ Hd Hbad)) as [msg Hs].
    assert (next (Created iterables dflt)
            = (Raise (ValueError msg), Closed [])) as Hnext
      by (cbn [next]; by rewrite Hs).
    repeat split; [by exists msg|].
    intros k Hk. apply (next_after_close _ 0 k []); [|done].
    cbn [advance]. by rewrite Hnext.
  - intros iterables dflt k e Hk Hnext.
    destruct (valid iterables dflt) eqn:Hv.
    + destruct (advance_at iterables dflt Hv k 0) as [[Ha _]|[c Hc]].
      2:{ change (gen_at iterables dflt 0) with (Created iterables dflt) in Hc.
          by rewrite Hc in Hnext. }
      change (gen_at iterables dflt 0) with (Created iterables dflt) in Ha.
      rewrite Ha, next_outcome in Hnext by done.
      unfold outcome_at in Hnext.
      destruct (first_halt _ _) as [[v| |e0]|] eqn:Hh; try done.
      2:{ by destruct (_ <? _). }
      injection Hnext as ->.
      apply first_halt_fails in Hh as (i & c & e' & Hc & Hd & ->).
      apply columns_lookup_inv in Hc as (it & _ & _ & Hl).
      exists i, e'. by rewrite Hl, Hd.
    + destruct (start_invalid _ _ Hv) as [msg Hs].
      rewrite (next_after_close (Created iterables dflt) 0 k []) in Hnext;
        [done| |done].
      cbn [advance next]. by rewrite Hs.
Qed.

Lemma config_error_at_first_request_witness :
  (VSeq [VPrevious; VNone] ≠ VNone
   ∧ length (elements (VSeq [VPrevious; VNone]))
       ≠ length [range10; reversed_range10; abcdef]
   ∧ ∃ msg, next (Created [range10; reversed_range10; abcdef]
                          (VSeq [VPrevious; VNone]))
            = (Raise (ValueError msg), Closed []))
  ∧ ((next (advance 6 (Created [range10; reversed_range10; abcdef]
                         (VSeq [VPrevious; VStopIteration;
                                VExc (IndexError "Oh no!")])))).1
     = Raise (IndexError "Oh no!")
     ∧ ∃ i e', elements (given_defaults
                           [range10; reversed_range10; abcdef]
                           (VSeq [VPrevious; VStopIteration;
                                  VExc (IndexError "Oh no!")])) !! i
               = Some (VExc e')
               ∧ IndexError "Oh no!" = gen_raise e').
Proof.
  assert (VSeq [VPrevious; VNone] ≠ VNone) as Hd by done.
  assert (length (elements (VSeq [VPrevious; VNone]))
          ≠ length [range10; reversed_range10; abcdef]) as Hl
    by (vm_compute; lia).
  assert ((next (advance 6 (Created [range10; reversed_range10; abcdef]
                              (VSeq [VPrevious; VStopIteration;
                                     VExc (IndexError "Oh no!")])))).1
          = Raise (IndexError "Oh no!")) as Hr by (by vm_compute).
  split.
  - repeat split; [done..|].
    exact (proj1 (proj2 (proj1 config_error_at_first_request
                           [range10; reversed_range10; abcdef]
                           (VSeq [VPrevious; VNone]) Hd (or_intror Hl)))).
  - split; [done|].
    exact (proj2 config_error_at_first_request
             [range10; reversed_range10; abcdef]
             (VSeq [VPrevious; VStopIteration; VExc (IndexError "Oh no!")])
             6 (IndexError "Oh no!") ltac:(lia) Hr).
Defined.

(** C3: with the defaults left out, or all of them StopIteration, the rows
    are exactly those of the standard truncating zip: as many rows as the
    shortest iterable has elements, row [j] made of the [j]-th elements,
    and then the iteration ends cleanly. *)
Theorem all_stop_is_zip iterables dflt :
  dflt = VNone ∨ dflt = VSeq (replicate (length iterables) VStopIteration) →
  collect iterables dflt = (truncating_zip (as_iter <$> iterables), Finished)
  ∧ length (truncating_zip (as_iter <$> iterables))
    = min_len (as_iter <$> iterables)
  ∧ ∀ j row, truncating_zip (as_iter <$> iterables) !! j = Some row →
             ∀ i it, iterables !! i = Some it → row !! i = as_iter it !! j.
Proof.
  intros Hd.
  destruct (columns_with_default iterables dflt VStopIteration) as [Hv Hc].
  { by destruct Hd as [-> | ->]. }
  split; [|split].
  - unfold collect.
    rewrite (run_until iterables dflt Hv _ 0 (min_len (as_iter <$> iterables))).
    + rewrite Hc. cbn [Nat.add]. rewrite all_stop_end. cbn [ending_of].
      f_equal. unfold truncating_zip. apply list_fmap_ext.
      intros k t [-> Hk]%lookup_seq. cbn [Nat.add].
      by apply row_at_live, min_len_live.
    + intros t Ht. cbn [Nat.add]. rewrite Hc.
      by rewrite all_stop_yield.
    + cbn [Nat.add]. rewrite Hc. by rewrite all_stop_end.
    + apply min_len_budget.
  - unfold truncating_zip. by rewrite length_fmap, length_seq.
  - intros j row Hj i it Hi. unfold truncating_zip in Hj.
    apply list_lookup_fmap_Some in Hj as (t & -> & [-> Ht]%lookup_seq).
    cbn [Nat.add]. rewrite !list_lookup_fmap, Hi. cbn.
    pose proof (min_len_le (as_iter <$> iterables)) as Hall.
    rewrite Forall_lookup in Hall.
    specialize (Hall i (as_iter it)). rewrite list_lookup_fmap, Hi in Hall.
    specialize (Hall eq_refl). cbn beta in Hall.
    by destruct (lookup_lt_is_Some_2 (as_iter it) j ltac:(lia)) as [x ->].
Qed.

Lemma all_stop_is_zip_witness :
  collect [range10; reversed_range10; abcdef] VNone
  = (truncating_zip (as_iter <$> [range10; reversed_range10; abcdef]),
     Finished)
  ∧ truncating_zip (as_iter <$> [range10; reversed_range10; abcdef])
    = first_six.
Proof.
  split; [|by vm_compute].
  exact (proj1 (all_stop_is_zip [range10; reversed_range10; abcdef] VNone
                  (or_introl eq_refl))).
Defined.

(** C4: when every iterable has an element and every default is Previous,
    there are exactly as many rows as the longest iterable has elements and
    the iteration then ends cleanly; in a row a column holds its own
    element while it has one, and its last element in all the rows after.
    For [0..9], [9..0] and "abcdef" these are ten rows that end with
    (6,3,f), (7,2,f), (8,1,f), (9,0,f). *)
Theorem all_previous_rows iterables :
  Forall (λ it, as_iter it ≠ []) iterables →
  (∃ rows,
     collect iterables (VSeq (replicate (length iterables) VPrevious))
     = (rows, Finished)
     ∧ length rows = max_len (as_iter <$> iterables)
     ∧ ∀ j row i it,
         rows !! j = Some row →
         iterables !! i = Some it →
         (∀ x, as_iter it !! j = Some x → row !! i = Some x)
         ∧ (length (as_iter it) ≤ j → row !! i = last (as_iter it)))
  ∧ collect [range10; reversed_range10; abcdef]
            (VSeq [VPrevious; VPrevious; VPrevious])
    = (first_six ++ last_four, Finished).
Proof.
  intros Hne. split; [|by vm_compute].
  set (dflt := VSeq (replicate (length iterables) VPrevious)).
  destruct (columns_with_default iterables dflt VPrevious) as [Hv Hc];
    [done|].
  exists (row_at (columns iterables dflt)
            <$> seq 0 (max_len (as_iter <$> iterables))).
  split; [|split].
  - unfold collect.
    rewrite (run_until iterables dflt Hv _ 0 (max_len (as_iter <$> iterables))).
    + cbn [Nat.add]. rewrite Hc at 2. rewrite all_previous_outcome.
      by rewrite Nat.ltb_irrefl.
    + intros t Ht. cbn [Nat.add]. rewrite Hc, all_previous_outcome.
      by apply Nat.ltb_lt in Ht as ->.
    + cbn [Nat.add]. rewrite Hc, all_previous_outcome.
      by rewrite Nat.ltb_irrefl.
    + apply max_len_budget.
  - by rewrite length_fmap, length_seq.
  - intros j row i it Hj Hi.
    apply list_lookup_fmap_Some in Hj as (t & -> & [-> Ht]%lookup_seq).
    cbn [Nat.add].
    assert (columns iterables dflt !! i = Some (as_iter it, VPrevious)) as Hcol.
    { rewrite Hc. unfold with_default. by rewrite !list_lookup_fmap, Hi. }
    rewrite (row_at_lookup _ _ _ _ Hcol). unfold cell, fill. simpl. split.
    + by intros x ->.
    + intros Hle. rewrite (lookup_ge_None_2 _ _ Hle). simpl.
      rewrite Forall_lookup in Hne. specialize (Hne i it Hi).
      destruct (as_iter it) as [|y l] using rev_ind; [done|].
      by rewrite last_snoc.
Qed.

Lemma all_previous_rows_witness :
  ∃ rows,
    collect [range10; reversed_range10; abcdef]
            (VSeq (replicate 3 VPrevious))
    = (rows, Finished)
    ∧ length rows = 10.
Proof.
  destruct (proj1 (all_previous_rows [range10; reversed_range10; abcdef]
                     ltac:(repeat constructor; discriminate)))
    as (rows & Hrows & Hlen & _).
  exists rows. split; [exact Hrows | exact Hlen].
Defined.

(** C5: a column whose default is a plain value [v] (no control value)
    holds [v] in every yielded row from the row on at which its iterable is
    found empty, and its own elements in the rows before. *)
Theorem constant_column fuel iterables dflt rows e j row i it v :
  run fuel (Created iterables dflt) = (rows, e) →
  rows !! j = Some row →
  iterables !! i = Some it →
  elements (given_defaults iterables dflt) !! i = Some v →
  is_control v = false →
  (length (as_iter it) ≤ j → row !! i = Some v)
  ∧ (∀ x, as_iter it !! j = Some x → row !! i = Some x).
Proof.
  intros Hrun Hj Hi Hd Hc.
  destruct (run_row_at _ _ _ _ _ _ _ Hrun Hj) as (Hv & -> & _).
  rewrite (row_at_lookup _ _ _ _ (columns_lookup _ _ _ _ _ Hi Hd)).
  unfold cell, fill. simpl. split.
  - intros Hle. rewrite (lookup_ge_None_2 _ _ Hle). simpl. by destruct v.
  - by intros x ->.
Qed.

Lemma constant_column_witness :
  run 20 (Created [range10; reversed_range10; abcdef]
                  (VSeq [VPrevious; VStopIteration; VNone]))
  = (first_six ++ [[VInt 6; VInt 3; VNone]; [VInt 7; VInt 2; VNone];
                   [VInt 8; VInt 1; VNone]; [VInt 9; VInt 0; VNone]],
     Finished)
  ∧ is_control VNone = false
  ∧ [VInt 7; VInt 2; VNone] !! 2 = Some VNone.
Proof.
  assert (run 20 (Created [range10; reversed_range10; abcdef]
                          (VSeq [VPrevious; VStopIteration; VNone]))
          = (first_six ++ [[VInt 6; VInt 3; VNone]; [VInt 7; VInt 2; VNone];
                           [VInt 8; VInt 1; VNone]; [VInt 9; VInt 0; VNone]],
             Finished)) as Hrun by (by vm_compute).
  split; [exact Hrun|]. split; [done|].
  refine (proj1 (constant_column _ _ _ _ _ 7 _ 2 abcdef VNone
                   Hrun eq_refl eq_refl eq_refl eq_refl) _).
  vm_compute. lia.
Defined.

(** C6 (counterexample): a default that is an instance of StopIteration is
    an exception instance, yet the request that finds its column empty does
    not fail with it: raised inside the generator it comes out as a
    RuntimeError. *)
Lemma raise_stop_iteration_instance :
  collect [VSeq [VInt 1]] (VSeq [VExc (StopIterationInst "")])
  = ([[VInt 1]], Raised (RuntimeError "generator raised StopIteration"))
  ∧ RuntimeError "generator raised StopIteration" ≠ StopIterationInst "".
Proof. split; [by vm_compute | discriminate]. Qed.

(** C6 (amended): for a column whose default is an exception instance [e]
    that is no instance of StopIteration, a request whose loop reaches the
    column when it is exhausted (found empty by this request, or marked
    stopped before) fails with exactly [e] and closes the generator; every
    row yielded before is the row the columns determine, and holds in this
    column the element of its own iterable. *)
Theorem raise_column_fails iterables dflt m previous fr i fr1 e :
  loop_entry (advance m (Created iterables dflt)) = Some (previous, fr) →
  i < n_items fr →
  for_loop previous (seq 0 i) fr = Normal fr1 →
  stopped fr1 !! i = Some true
  ∨ (stopped fr1 !! i = Some false ∧ items fr1 !! i = Some []) →
  defaults fr1 !! i = Some (VExc e) →
  (∀ msg, e ≠ StopIterationInst msg) →
  (∃ cursors,
     next (advance m (Created iterables dflt)) = (Raise e, Closed cursors))
  ∧ (∀ fuel rows en t row,
       run fuel (Created iterables dflt) = (rows, en) →
       rows !! t = Some row →
       row = row_at (columns iterables dflt) t
       ∧ ∃ it x, iterables !! i = Some it ∧ as_iter it !! t = Some x
                 ∧ row !! i = Some x).
Proof.
  intros Hentry Hi Hloop Hex Hd He. split.
  - rewrite (next_loop_entry _ _ _ Hentry), (seq_split_at i) by done.
    rewrite for_loop_app, Hloop. cbn [for_loop].
    destruct (column_raise previous i fr1 e Hex Hd) as [fr' ->].
    rewrite gen_raise_other by done. simpl. eauto.
  - intros fuel rows en t row Hrun Ht.
    apply for_loop_frame in Hloop as (_ & Hdef & _).
    apply loop_entry_reachable in Hentry as (Hv & ->).
    rewrite Hdef in Hd. cbn [frame_at defaults app] in Hd.
    apply list_lookup_fmap_Some in Hd as (c & Hc2 & Hc).
    apply columns_lookup_inv in Hc as (it & Hit & _ & Hl).
    rewrite <- Hc2 in Hl.
    apply (halting_column_rows _ _ _ _ _ _ _ i Hrun Ht). eauto.
Qed.

Lemma raise_column_fails_witness :
  ∃ cursors,
    next (advance 6 (Created raise_demo raise_demo_defaults))
    = (Raise (IndexError "Oh no!"), Closed cursors).
Proof.
  pose proof (λ previous fr,
              raise_column_fails raise_demo raise_demo_defaults 6
                                 previous fr 2) as H.
  edestruct H as [Hnext _].
  - vm_compute. reflexivity.
  - vm_compute. lia.
  - vm_compute. reflexivity.
  - right. split; reflexivity.
  - reflexivity.
  - discriminate.
  - exact Hnext.
Defined.

(** C7: when the loop of a request reaches a column [k] whose default is
    StopIteration and finds its iterable empty, the request yields no row
    and closes the generator, the iterators of the columns after [k] are
    where they were before the request, no later request yields a row; and
    in every row that was yielded column [k] holds an element of its own
    iterable, never a filled value. *)
Theorem stop_column_ends_iteration iterables dflt m previous fr k fr1 :
  loop_entry (advance m (Created iterables dflt)) = Some (previous, fr) →
  k < n_items fr →
  for_loop previous (seq 0 k) fr = Normal fr1 →
  stopped fr1 !! k = Some false →
  items fr1 !! k = Some [] →
  defaults fr1 !! k = Some VStopIteration →
  (∃ cursors,
     next (advance m (Created iterables dflt)) = (StopIter, Closed cursors)
     ∧ ∀ i, k < i → cursors !! i = items fr !! i)
  ∧ (∀ m', m < m' →
           (next (advance m' (Created iterables dflt))).1 = StopIter)
  ∧ (∀ fuel rows e t row,
       run fuel (Created iterables dflt) = (rows, e) →
       rows !! t = Some row →
       ∃ it x, iterables !! k = Some it ∧ as_iter it !! t = Some x
               ∧ row !! k = Some x).
Proof.
  intros Hentry Hk Hloop Hs Hi Hd.
  assert (next (advance m (Created iterables dflt))
          = (StopIter, Closed (items fr1))) as Hnext.
  { rewrite (next_loop_entry _ _ _ Hentry), (seq_split_at k) by done.
    rewrite for_loop_app, Hloop. cbn [for_loop].
    by rewrite column_stop. }
  apply for_loop_frame in Hloop as (Hitems & Hdef & _).
  split; [|split].
  - exists (items fr1). split; [done|].
    intros i Hki. apply Hitems. rewrite elem_of_seq. lia.
  - intros m' Hm'. apply (next_after_close _ m m' (items fr1)); [|done].
    by rewrite Hnext.
  - intros fuel rows e t row Hrun Ht.
    apply loop_entry_reachable in Hentry as (Hv & ->).
    rewrite Hdef in Hd. cbn [frame_at defaults app] in Hd.
    apply list_lookup_fmap_Some in Hd as (c & Hc2 & Hc).
    apply columns_lookup_inv in Hc as (it & Hit & _ & Hl).
    rewrite <- Hc2 in Hl.
    by destruct (halting_column_rows _ _ _ _ _ _ _ k Hrun Ht (or_introl Hl))
      as (_ & ?).
Qed.

Lemma stop_column_ends_iteration_witness :
  ∃ cursors,
    next (advance 2 (Created stop_demo stop_demo_defaults))
    = (StopIter, Closed cursors)
    ∧ cursors !! 2 = Some (drop 2 (elements range10)).
Proof.
  pose proof (λ previous fr,
              stop_column_ends_iteration stop_demo stop_demo_defaults 2
                                         previous fr 1) as H.
  edestruct H as [(cursors & Hnext & Hlater) _].
  - vm_compute. reflexivity.
  - vm_compute. lia.
  - vm_compute. reflexivity.
  - reflexivity.
  - reflexivity.
  - reflexivity.
  - exists cursors. split; [exact Hnext|].
    rewrite (Hlater 2) by lia. reflexivity.
Defined.

(** C8: an argument that is not iterable, passed where an iterable is
    expected, behaves exactly as the one-element sequence holding it: the
    first request answers the same and leaves the same generator, hence so
    does every run. *)
Theorem scalar_as_singleton pre v post dflt :
  is_iterable v = false →
  next (Created (pre ++ v :: post) dflt)
  = next (Created (pre ++ VSeq [v] :: post) dflt)
  ∧ (∀ fuel, run fuel (Created (pre ++ v :: post) dflt)
             = run fuel (Created (pre ++ VSeq [v] :: post) dflt))
  ∧ collect (pre ++ v :: post) dflt = collect (pre ++ VSeq [v] :: post) dflt.
Proof.
  intros Hv.
  assert (next (Created (pre ++ v :: post) dflt)
          = next (Created (pre ++ VSeq [v] :: post) dflt)) as Hnext.
  { cbn [next]. by rewrite start_scalar. }
  assert (∀ fuel, run fuel (Created (pre ++ v :: post) dflt)
                  = run fuel (Created (pre ++ VSeq [v] :: post) dflt)) as Hrun.
  { intros [|fuel]; [done|]. cbn [run]. by rewrite Hnext. }
  repeat split; [done..|].
  unfold collect, budget. rewrite Hrun, !sum_list_with_app. simpl.
  unfold as_iter at 2 5. by rewrite Hv.
Qed.

Lemma scalar_as_singleton_witness :
  is_iterable (VInt 5) = false
  ∧ collect ([range10] ++ VInt 5 :: [abcdef]) (VSeq [VPrevious; VNone; VNone])
    = collect ([range10] ++ VSeq [VInt 5] :: [abcdef])
              (VSeq [VPrevious; VNone; VNone]).
Proof.
  split; [done|].
  exact (proj2 (proj2 (scalar_as_singleton [range10] (VInt 5) [abcdef]
                         (VSeq [VPrevious; VNone; VNone]) eq_refl))).
Defined.

(** C9: when the very first pull of a column finds its iterable empty and
    the default of the column is Previous, the first row, if one is
    yielded, holds None in that column. *)
Theorem first_row_previous_is_none iterables dflt i it row g :
  iterables !! i = Some it →
  as_iter it = [] →
  elements (given_defaults iterables dflt) !! i = Some VPrevious →
  next (Created iterables dflt) = (Yield row, g) →
  row !! i = Some VNone.
Proof.
  intros Hi Hit Hd Hnext.
  destruct (valid iterables dflt) eqn:Hv.
  2:{ destruct (start_invalid _ _ Hv) as [msg Hs].
      cbn [next] in Hnext. by rewrite Hs in Hnext. }
  pose proof (next_outcome iterables dflt 0 Hv) as Ho.
  cbn [gen_at] in Ho. rewrite Hnext in Ho. symmetry in Ho.
  apply outcome_at_yield in Ho as (-> & _).
  rewrite (row_at_lookup _ _ _ _ (columns_lookup _ _ _ _ _ Hi Hd)).
  unfold cell, fill. simpl. by rewrite Hit.
Qed.

Lemma first_row_previous_is_none_witness :
  next (Created [range10; VSeq []] (VSeq [VNone; VPrevious]))
  = (Yield [VInt 0; VNone],
     (next (Created [range10; VSeq []] (VSeq [VNone; VPrevious]))).2)
  ∧ [VInt 0; VNone] !! 1 = Some VNone.
Proof.
  assert (next (Created [range10; VSeq []] (VSeq [VNone; VPrevious]))
          = (Yield [VInt 0; VNone],
             (next (Created [range10; VSeq []] (VSeq [VNone; VPrevious]))).2))
    as Hnext by (by vm_compute).
  split; [exact Hnext|].
  exact (first_row_previous_is_none
           [range10; VSeq []] (VSeq [VNone; VPrevious]) 1 (VSeq []) _ _
           eq_refl eq_refl eq_refl Hnext).
Defined.

(** C10: in every row that is yielded, a column whose iterable still had
    an element for that row holds exactly that element, whatever the
    defaults are. *)
Theorem live_column_keeps_element fuel iterables dflt rows e j row i it x :
  run fuel (Created iterables dflt) = (rows, e) →
  rows !! j = Some row →
  iterables !! i = Some it →
  as_iter it !! j = Some x →
  row !! i = Some x.
Proof.
  intros Hrun Hj Hi Hx.
  destruct (run_row_at _ _ _ _ _ _ _ Hrun Hj) as (Hv & -> & _).
  destruct (lookup_lt_is_Some_2 (elements (given_defaults iterables dflt)) i)
    as [d Hd].
  { rewrite valid_length by done. by apply lookup_lt_Some in Hi. }
  rewrite (row_at_lookup _ _ _ _ (columns_lookup _ _ _ _ _ Hi Hd)).
  unfold cell. simpl. by rewrite Hx.
Qed.

Lemma live_column_keeps_element_witness :
  run 20 (Created [range10; reversed_range10; abcdef]
                  (VSeq [VPrevious; VStopIteration; VNone]))
  = (first_six ++ [[VInt 6; VInt 3; VNone]; [VInt 7; VInt 2; VNone];
                   [VInt 8; VInt 1; VNone]; [VInt 9; VInt 0; VNone]],
     Finished)
  ∧ row3 4 5 "e" !! 1 = Some (VInt 5).
Proof.
  assert (run 20 (Created [range10; reversed_range10; abcdef]
                          (VSeq [VPrevious; VStopIteration; VNone]))
          = (first_six ++ [[VInt 6; VInt 3; VNone]; [VInt 7; VInt 2; VNone];
                           [VInt 8; VInt 1; VNone]; [VInt 9; VInt 0; VNone]],
             Finished)) as Hrun by (by vm_compute).
  split; [exact Hrun|].
  exact (live_column_keeps_element _ _ _ _ _ 4 _ 1 reversed_range10 (VInt 5)
           Hrun eq_refl eq_refl eq_refl).
Defined.

(** * Further properties *)

(** ** Counting the rows *)

Lemma columns_fst iterables dflt :
  valid iterables dflt = true →
  (columns iterables dflt).*1 = as_iter <$> iterables.
Proof.
  intros Hv. unfold columns. apply fst_zip.
  rewrite length_fmap, valid_length; done.
Qed.

Lemma columns_length iterables dflt :
  valid iterables dflt = true →
  length (columns iterables dflt) = length iterables.
Proof.
  intros Hv. rewrite <- (length_fmap fst), columns_fst by done.
  by rewrite length_fmap.
Qed.

Lemma live_cols (cols : list col) t :
  count_if (exhausted (S t)) cols < length cols ↔ t < max_len (cols.*1).
Proof.
  induction cols as [|c cols IH]; [simpl; lia|].
  rewrite fmap_cons. cbn [count_if length max_len foldr].
  fold (max_len (cols.*1)).
  pose proof (count_if_le (exhausted (S t)) cols).
  destruct (exhausted (S t) c) eqn:He;
    [apply exhausted_spec in He | apply exhausted_false in He]; lia.
Qed.

Lemma verdict_live j (c : col) :
  j < length c.1 → verdict_at j c = Gives (cell j c).
Proof.
  intros Hj. unfold verdict_at, cell.
  by destruct (lookup_lt_is_Some_2 _ _ Hj) as [x ->].
Qed.

Lemma verdict_not_halting j (c : col) :
  halting c = false → verdict_at j c = Gives (cell j c).
Proof.
  unfold halting, verdict_at, cell, fill. intros Hh.
  destruct (c.1 !! j); [done|]. by destruct (c.2).
Qed.

Lemma first_halt_all_give j cols :
  Forall (λ c, verdict_at j c = Gives (cell j c)) cols →
  first_halt j cols = None.
Proof. induction 1 as [|c cols Hc _ IH]; simpl; [done | by rewrite Hc]. Qed.

Lemma first_halt_some j cols v :
  first_halt j cols = Some v →
  ∃ i (c : col), cols !! i = Some c ∧ verdict_at j c = v
                 ∧ ∀ w, v ≠ Gives w.
Proof.
  induction cols as [|c cols IH]; simpl; [done|].
  destruct (verdict_at j c) as [w| |e] eqn:Hv.
  - intros (i & c' & ? & ? & ?)%IH. by exists (S i), c'.
  - intros [= <-]. by exists 0, c.
  - intros [= <-]. by exists 0, c.
Qed.

Section RowLimit.
Implicit Types (cols : list col) (m : nat).

Local Abbreviation cut cols m :=
  (foldr (λ (c : col) m', if halting c then length c.1 `min` m' else m')
         m cols).

Lemma cut_le cols m : cut cols m ≤ m.
Proof.
  induction cols as [|c cols IH]; simpl; [done|]. destruct (halting c); lia.
Qed.

Lemma cut_le_halting cols m (c : col) :
  c ∈ cols → halting c = true → cut cols m ≤ length c.1.
Proof.
  induction cols as [|c' cols IH]; [by intros ?%elem_of_nil|].
  intros [->|Hin]%elem_of_cons Hh; simpl.
  - rewrite Hh. lia.
  - specialize (IH Hin Hh). destruct (halting c'); lia.
Qed.

Lemma cut_cases cols m :
  cut cols m = m
  ∨ ∃ c : col, c ∈ cols ∧ halting c = true ∧ length c.1 = cut cols m.
Proof.
  induction cols as [|c cols IH]; simpl; [by left|].
  destruct (halting c) eqn:Hh;
    [destruct (decide (length c.1 ≤ cut cols m)) as [Hle|Hgt]|].
  - right. exists c. split; [by left|]. split; [done|lia].
  - replace (length c.1 `min` cut cols m) with (cut cols m) by lia.
    destruct IH as [IH|(c0 & Hin & Hh0 & Hl0)]; [by left|].
    right. exists c0. split; [by right|done].
  - destruct IH as [IH|(c0 & Hin & Hh0 & Hl0)]; [by left|].
    right. exists c0. split; [by right|done].
Qed.
End RowLimit.

Lemma row_limit_le_max cols : row_limit cols ≤ max_len (cols.*1).
Proof. apply cut_le. Qed.

Lemma outcome_before_limit cols t :
  t < row_limit cols → outcome_at cols t = Yield (row_at cols t).
Proof.
  intros Ht. unfold outcome_at. rewrite first_halt_all_give.
  - pose proof (row_limit_le_max cols).
    assert (count_if (exhausted (S t)) cols < length cols) as Hlive
      by (apply live_cols; lia).
    by apply Nat.ltb_lt in Hlive as ->.
  - apply Forall_forall. intros c Hc.
    destruct (halting c) eqn:Hh; [|by apply verdict_not_halting].
    apply verdict_live.
    pose proof (cut_le_halting cols (max_len (cols.*1)) c Hc Hh).
    unfold row_limit in Ht. lia.
Qed.

Lemma outcome_at_limit cols :
  is_yield (outcome_at cols (row_limit cols)) = false.
Proof.
  unfold outcome_at.
  destruct (first_halt (row_limit cols) cols) as [[v| |e]|] eqn:Hh; try done.
  destruct (cut_cases cols (max_len (cols.*1)))
    as [Hmax|(c & Hc & Hhalt & Hlen)]; fold (row_limit cols) in *.
  - assert (¬ count_if (exhausted (S (row_limit cols))) cols < length cols)
      as Hdead by (rewrite live_cols; lia).
    by apply Nat.ltb_nlt in Hdead as ->.
  - exfalso. apply list_elem_of_lookup in Hc as [i Hi].
    pose proof (first_halt_none _ _ _ _ Hh Hi) as Hv.
    unfold verdict_at, halting in *.
    rewrite (lookup_ge_None_2 c.1 (row_limit cols)) in Hv by lia.
    destruct (c.2); try done.
    by rewrite Hlen, Nat.eqb_refl in Hv.
Qed.

(** The rows of a call, and how it ends, read off the columns. *)
Lemma collect_closed_form iterables dflt :
  valid iterables dflt = true →
  collect iterables dflt
  = (row_at (columns iterables dflt)
       <$> seq 0 (row_limit (columns iterables dflt)),
     ending_of (outcome_at (columns iterables dflt)
                           (row_limit (columns iterables dflt)))).
Proof.
  intros Hv. unfold collect.
  rewrite (run_until iterables dflt Hv _ 0
             (row_limit (columns iterables dflt))); [done| | |].
  - intros t Ht. cbn [Nat.add]. by rewrite outcome_before_limit.
  - apply outcome_at_limit.
  - pose proof (row_limit_le_max (columns iterables dflt)) as Hle.
    rewrite columns_fst in Hle by done.
    pose proof (max_len_budget iterables). lia.
Qed.

Lemma row_at_all_live (cols : list col) t :
  Forall (λ c : col, t < length c.1) cols →
  row_at cols t = (λ s, default VNone (s !! t)) <$> cols.*1.
Proof.
  induction 1 as [|c cols Hc _ IH]; [done|].
  unfold row_at in *. rewrite !fmap_cons, IH. f_equal.
  unfold cell. by destruct (lookup_lt_is_Some_2 _ _ Hc) as [x ->].
Qed.

Lemma min_len_le_max seqs : min_len seqs ≤ max_len seqs.
Proof.
  destruct seqs as [|s rest]; [done|].
  pose proof (min_len_le (s :: rest)) as [Hs _]%Forall_cons.
  cbn beta in Hs. cbn [max_len foldr]. lia.
Qed.

Lemma min_len_le_limit (cols : list col) : min_len (cols.*1) ≤ row_limit cols.
Proof.
  destruct (cut_cases cols (max_len (cols.*1)))
    as [Hmax|(c & Hc & _ & Hlen)]; fold (row_limit cols) in *.
  - rewrite Hmax. apply min_len_le_max.
  - rewrite <- Hlen.
    pose proof (min_len_le (cols.*1)) as Hmin.
    rewrite Forall_fmap, Forall_forall in Hmin. apply (Hmin c Hc).
Qed.

(** X1: every row that is yielded has one entry for every iterable of the
    call, whatever the defaults and however the run ends. *)
Theorem row_width fuel iterables dflt rows e j row :
  run fuel (Created iterables dflt) = (rows, e) →
  rows !! j = Some row →
  length row = length iterables.
Proof.
  intros Hrun Hj.
  destruct (run_row_at _ _ _ _ _ _ _ Hrun Hj) as (Hv & -> & _).
  unfold row_at. by rewrite length_fmap, columns_length.
Qed.

Lemma row_width_witness :
  run 20 (Created raise_demo raise_demo_defaults)
  = (first_six, Raised (IndexError "Oh no!"))
  ∧ length (row3 3 6 "d") = length raise_demo.
Proof.
  assert (run 20 (Created raise_demo raise_demo_defaults)
          = (first_six, Raised (IndexError "Oh no!"))) as Hrun
    by (by vm_compute).
  split; [exact Hrun|].
  exact (row_width 20 raise_demo raise_demo_defaults _ _ 3 (row3 3 6 "d")
           Hrun eq_refl).
Defined.

(** X2: for arguments that pass the checks, the number of rows is the
    length of the longest iterable, cut down to the length of every
    iterable whose default is StopIteration or an exception; the rows are
    complete (the run has ended). *)
Theorem row_count iterables dflt :
  valid iterables dflt = true →
  length (collect iterables dflt).1 = row_limit (columns iterables dflt)
  ∧ (collect iterables dflt).2 ≠ Unfinished.
Proof.
  intros Hv. split; [|apply collect_total].
  rewrite collect_closed_form by done. cbn [fst].
  by rewrite length_fmap, length_seq.
Qed.

Lemma row_count_witness :
  valid stop_demo stop_demo_defaults = true
  ∧ length (collect stop_demo stop_demo_defaults).1 = 2.
Proof.
  split; [done|].
  exact (proj1 (row_count stop_demo stop_demo_defaults eq_refl)).
Defined.

(** X3: no call gives more rows than its longest iterable has elements:
    once every column is exhausted no row is yielded. *)
Theorem rows_at_most_longest fuel iterables dflt :
  length (run fuel (Created iterables dflt)).1
  ≤ max_len (as_iter <$> iterables).
Proof.
  destruct (run fuel (Created iterables dflt)) as [rows e] eqn:Hrun.
  cbn [fst]. destruct (valid iterables dflt) eqn:Hv.
  2:{ pose proof (run_invalid fuel _ _ Hv) as Hr.
      rewrite Hrun in Hr. cbn [fst] in Hr. subst rows. simpl. lia. }
  destruct (length rows) as [|n] eqn:Hn; [lia|].
  destruct (lookup_lt_is_Some_2 rows n) as [row Hrow]; [lia|].
  apply (run_rows iterables dflt Hv fuel 0 _ e Hrun) in Hrow.
  apply outcome_at_yield in Hrow as (_ & _ & Hlive).
  apply live_cols in Hlive. rewrite columns_fst in Hlive by done.
  simpl in Hlive. lia.
Qed.

(** X4: for arguments that pass the checks, whatever the defaults are, the
    rows start with the rows of the standard truncating zip: the defaults
    only matter from the row on at which the shortest iterable has run
    out. *)
Theorem zip_rows_come_first iterables dflt :
  valid iterables dflt = true →
  ∃ more,
    (collect iterables dflt).1 = truncating_zip (as_iter <$> iterables) ++ more.
Proof.
  intros Hv. rewrite collect_closed_form by done. cbn [fst].
  pose proof (min_len_le_limit (columns iterables dflt)) as Hle.
  pose proof (columns_fst _ _ Hv) as Hfst. rewrite Hfst in Hle.
  set (m := min_len (as_iter <$> iterables)) in *.
  exists (row_at (columns iterables dflt)
            <$> seq m (row_limit (columns iterables dflt) - m)).
  replace (row_limit (columns iterables dflt))
    with (m + (row_limit (columns iterables dflt) - m)) at 1 by lia.
  rewrite seq_app, fmap_app. f_equal.
  unfold truncating_zip. fold m. apply list_fmap_ext.
  intros k t [-> Hk]%lookup_seq. cbn [Nat.add].
  rewrite row_at_all_live; [by rewrite Hfst|].
  pose proof (min_len_live _ _ Hk) as Hlive.
  rewrite <- Hfst in Hlive. by rewrite Forall_fmap in Hlive.
Qed.

Lemma zip_rows_come_first_witness :
  valid raise_demo raise_demo_defaults = true
  ∧ ∃ more,
      (collect raise_demo raise_demo_defaults).1
      = truncating_zip (as_iter <$> raise_demo) ++ more.
Proof.
  split; [done|].
  exact (zip_rows_come_first raise_demo raise_demo_defaults eq_refl).
Defined.

Lemma verdict_fails_inv j (c : col) e :
  verdict_at j c = Fails e →
  ∃ e', c.2 = VExc e' ∧ e = gen_raise e' ∧ length c.1 ≤ j.
Proof.
  unfold verdict_at. destruct (c.1 !! j) eqn:Hj; [done|].
  apply lookup_ge_None_1 in Hj.
  destruct (c.2) as [| | | | | | |e']; try done.
  - by destruct (length c.1 =? j).
  - intros [= <-]. by exists e'.
Qed.

Lemma verdict_stops_inv j (c : col) :
  verdict_at j c = Stops → c.2 = VStopIteration ∧ length c.1 = j.
Proof.
  unfold verdict_at. destruct (c.1 !! j); [done|].
  destruct (c.2); try done.
  destruct (length c.1 =? j) eqn:Hl; [|done].
  by apply Nat.eqb_eq in Hl.
Qed.

(** X5: in every yielded row, a column whose default is Previous holds,
    once its iterable has run out, the last element the iterable gave, and
    None when the iterable gave none; this holds whatever the other columns
    and their defaults are. *)
Theorem previous_column fuel iterables dflt rows e j row i it :
  run fuel (Created iterables dflt) = (rows, e) →
  rows !! j = Some row →
  iterables !! i = Some it →
  elements (given_defaults iterables dflt) !! i = Some VPrevious →
  length (as_iter it) ≤ j →
  row !! i = Some (default VNone (last (as_iter it))).
Proof.
  intros Hrun Hj Hi Hd Hle.
  destruct (run_row_at _ _ _ _ _ _ _ Hrun Hj) as (Hv & -> & _).
  rewrite (row_at_lookup _ _ _ _ (columns_lookup _ _ _ _ _ Hi Hd)).
  unfold cell, fill. simpl. by rewrite (lookup_ge_None_2 _ _ Hle).
Qed.

Lemma previous_column_witness :
  run 20 (Created [abcdef; VSeq []; range10]
                  (VSeq [VPrevious; VPrevious; VNone]))
  = ((λ j, [default (VStr "f") (elements abcdef !! j); VNone;
            VInt (Z.of_nat j)]) <$> seq 0 10,
     Finished)
  ∧ [VStr "f"; VNone; VInt 8] !! 0 = Some (VStr "f")
  ∧ [VStr "f"; VNone; VInt 8] !! 1 = Some VNone.
Proof.
  assert (run 20 (Created [abcdef; VSeq []; range10]
                          (VSeq [VPrevious; VPrevious; VNone]))
          = ((λ j, [default (VStr "f") (elements abcdef !! j); VNone;
                    VInt (Z.of_nat j)]) <$> seq 0 10,
             Finished)) as Hrun by (by vm_compute).
  split; [exact Hrun|]. split.
  - refine (previous_column 20 _ _ _ _ 8 _ 0 abcdef Hrun
              eq_refl eq_refl eq_refl _).
    vm_compute. lia.
  - refine (previous_column 20 _ _ _ _ 8 _ 1 (VSeq []) Hrun
              eq_refl eq_refl eq_refl _).
    vm_compute. lia.
Defined.

(** X6: for arguments that pass the checks, a call that ends with an
    exception ends with the exception of a default (as a generator raises
    it) whose iterable has exactly as many elements as rows were yielded;
    a call that ends cleanly has yielded as many rows as its longest
    iterable has elements, or as an iterable with default StopIteration
    has. *)
Theorem ending_law iterables dflt :
  valid iterables dflt = true →
  (∀ e, (collect iterables dflt).2 = Raised e →
        ∃ i it e',
          iterables !! i = Some it
          ∧ elements (given_defaults iterables dflt) !! i = Some (VExc e')
          ∧ e = gen_raise e'
          ∧ length (as_iter it) = length (collect iterables dflt).1)
  ∧ ((collect iterables dflt).2 = Finished →
     length (collect iterables dflt).1 = max_len (as_iter <$> iterables)
     ∨ ∃ i it,
         iterables !! i = Some it
         ∧ elements (given_defaults iterables dflt) !! i = Some VStopIteration
         ∧ length (as_iter it) = length (collect iterables dflt).1).
Proof.
  intros Hv. rewrite collect_closed_form by done. cbn [fst snd].
  rewrite length_fmap, length_seq.
  set (cols := columns iterables dflt).
  assert (∀ i (c : col), cols !! i = Some c → halting c = true →
                         row_limit cols ≤ length c.1) as Hhalt.
  { intros i c Hc Hh. apply cut_le_halting; [|done].
    by apply list_elem_of_lookup_2 in Hc. }
  unfold outcome_at.
  destruct (first_halt (row_limit cols) cols) as [v|] eqn:Hh.
  - apply first_halt_some in Hh as (i & c & Hc & Hverdict & Hng).
    destruct (columns_lookup_inv _ _ _ _ Hc) as (it & Hit & Hc1 & Hc2).
    destruct v as [w| |e0]; [by destruct (Hng w)| |].
    + apply verdict_stops_inv in Hverdict as [Hd Hlen]. split; [done|].
      intros _. right. exists i, it. by rewrite Hc2, Hd, <- Hc1.
    + apply verdict_fails_inv in Hverdict as (e' & Hd & -> & Hlen).
      split; [|done]. intros e [= <-]. exists i, it, e'.
      rewrite Hc2, Hd, <- Hc1. repeat split; [done..|].
      assert (halting c = true) as Hhc by (unfold halting; by rewrite Hd).
      specialize (Hhalt i c Hc Hhc). lia.
  - destruct (_ <? _) eqn:Hlive; [done|]. split; [done|].
    intros _. left. apply Nat.ltb_ge in Hlive.
    assert (¬ row_limit cols < max_len (cols.*1)) as Hdead
      by (rewrite <- live_cols; lia).
    pose proof (row_limit_le_max cols).
    subst cols. rewrite columns_fst in * by done. lia.
Qed.

Lemma ending_law_witness :
  valid raise_demo raise_demo_defaults = true
  ∧ (collect raise_demo raise_demo_defaults).2 = Raised (IndexError "Oh no!")
  ∧ ∃ i it e',
      raise_demo !! i = Some it
      ∧ elements (given_defaults raise_demo raise_demo_defaults) !! i
        = Some (VExc e')
      ∧ IndexError "Oh no!" = gen_raise e'
      ∧ length (as_iter it)
        = length (collect raise_demo raise_demo_defaults).1.
Proof.
  split; [done|]. split; [by vm_compute|].
  refine (proj1 (ending_law raise_demo raise_demo_defaults eq_refl) _ _).
  by vm_compute.
Defined.

(** ** The frame between two requests *)

Lemma suspended_at iterables dflt k fr :
  advance k (Created iterables dflt) = Suspended fr →
  valid iterables dflt = true
  ∧ ∃ j, k = S j
         ∧ fr = frame_at (columns iterables dflt) [] j
                         (row_at (columns iterables dflt) j)
         ∧ count_if (exhausted k) (columns iterables dflt)
           < length (columns iterables dflt).
Proof.
  intros Ha. destruct (valid iterables dflt) eqn:Hv.
  - split; [done|].
    destruct (advance_at iterables dflt Hv k 0) as [[Hg Hy]|[c Hc]].
    2:{ change (gen_at iterables dflt 0) with (Created iterables dflt) in Hc.
        by rewrite Hc in Ha. }
    change (gen_at iterables dflt 0) with (Created iterables dflt) in Hg.
    rewrite Hg in Ha. destruct k as [|j]; [done|].
    cbn [Nat.add gen_at] in Ha. injection Ha as <-.
    exists j. repeat split; [done..|].
    specialize (Hy j ltac:(lia)). cbn [Nat.add] in Hy.
    destruct (outcome_at (columns iterables dflt) j) as [row| |] eqn:Ho;
      try done.
    by apply outcome_at_yield in Ho as (_ & _ & ?).
  - destruct (start_invalid _ _ Hv) as [msg Hs].
    destruct k as [|k]; [done|].
    cbn [advance next] in Ha. rewrite Hs in Ha. cbn [snd] in Ha.
    by rewrite advance_closed in Ha.
Qed.

Lemma count_true_fmap {A} (p : A → bool) (l : list A) :
  count_true (p <$> l) = count_if p l.
Proof.
  unfold count_true.
  induction l as [|x l IH]; [done|]. rewrite fmap_cons. simpl. by rewrite IH.
Qed.

(** X7: between two requests the iterators are in lockstep: after [k] rows
    every iterator has given exactly its first [k] elements (all of them
    when it has fewer), and a column is marked stopped exactly when a
    request has found its iterator empty, that is when it has fewer than
    [k] elements. *)
Theorem iterators_in_lockstep iterables dflt k fr :
  advance k (Created iterables dflt) = Suspended fr →
  items fr = drop k <$> (as_iter <$> iterables)
  ∧ stopped fr = (λ it, length (as_iter it) <? k) <$> iterables.
Proof.
  intros (Hv & j & -> & -> & _)%suspended_at.
  pose proof (columns_fst _ _ Hv) as Hfst.
  cbn [frame_at items stopped]. rewrite !fmap_nil, !app_nil_r. split.
  - rewrite <- Hfst, <- list_fmap_compose. by apply list_fmap_ext.
  - transitivity ((λ s : list value, length s <? S j)
                    <$> (columns iterables dflt).*1).
    + rewrite <- list_fmap_compose. by apply list_fmap_ext.
    + rewrite Hfst, <- list_fmap_compose. by apply list_fmap_ext.
Qed.

Lemma iterators_in_lockstep_witness :
  ∃ fr,
    advance 3 (Created stop_demo (VSeq [VPrevious; VNone; VNone]))
    = Suspended fr
    ∧ items fr = [chars "def"; []; ints [3; 4; 5; 6; 7; 8; 9]%Z]
    ∧ stopped fr = [false; true; false].
Proof.
  eexists. split; [by vm_compute|].
  refine (iterators_in_lockstep stop_demo (VSeq [VPrevious; VNone; VNone])
            3 _ _).
  by vm_compute.
Defined.

(** X8: the bookkeeping of the frame between two requests: [n_stopped]
    counts the flags set in [stopped] and is below [n_items] (some column
    is still live); [defaults], [items], [stopped] and the row just yielded
    all have [n_items] entries, the number of iterables, so no index of the
    loop is out of range; [i_rows] is the index of the row just yielded. *)
Theorem frame_bookkeeping iterables dflt k fr :
  advance k (Created iterables dflt) = Suspended fr →
  n_stopped fr = count_true (stopped fr)
  ∧ n_stopped fr < n_items fr
  ∧ n_items fr = length iterables
  ∧ length (defaults fr) = n_items fr
  ∧ length (items fr) = n_items fr
  ∧ length (stopped fr) = n_items fr
  ∧ length (values fr) = n_items fr
  ∧ S (i_rows fr) = k.
Proof.
  intros (Hv & j & -> & -> & Hlive)%suspended_at.
  pose proof (columns_length _ _ Hv) as Hlen.
  cbn [frame_at n_stopped stopped n_items defaults items values i_rows].
  rewrite !fmap_nil, !app_nil_r. cbn [count_if length].
  rewrite count_true_fmap, !length_fmap, !Nat.add_0_r, Hlen.
  unfold row_at. rewrite length_fmap, Hlen. repeat split; lia.
Qed.

Lemma frame_bookkeeping_witness :
  ∃ fr,
    advance 3 (Created stop_demo (VSeq [VPrevious; VNone; VNone]))
    = Suspended fr
    ∧ n_stopped fr = 1 ∧ n_items fr = 3 ∧ i_rows fr = 2.
Proof.
  eexists. split; [by vm_compute|].
  match goal with
  | |- n_stopped ?f = _ ∧ _ =>
      destruct (frame_bookkeeping stop_demo (VSeq [VPrevious; VNone; VNone])
                  3 f eq_refl) as (Hn & _ & Hi & _ & _ & _ & _ & Hr)
  end.
  split; [rewrite Hn; by vm_compute|].
  split; [rewrite Hi; by vm_compute|]. exact (f_equal pred Hr).
Defined.

(** ** What a request takes from the iterators *)

Lemma fill_column_stopped previous i fr fr' :
  fill_column previous i fr = Normal fr' → stopped fr' = stopped fr.
Proof.
  unfold fill_column. intros H.
  repeat match type of H with
         | match ?x with _ => _ end = _ => destruct x
         end; try done; by injection H as <-.
Qed.

Lemma column_other previous i fr fr' i' :
  column previous i fr = Normal fr' →
  i' ≠ i →
  stopped fr' !! i' = stopped fr !! i' ∧ items fr' !! i' = items fr !! i'.
Proof.
  intros Hc Hne. split; [|by apply (column_frame _ _ _ _ Hc)].
  unfold column in Hc.
  destruct (stopped fr !! i) as [[]|]; [|destruct (items fr !! i) as [[|x r]|]|];
    try done.
  - by rewrite (fill_column_stopped _ _ _ _ Hc).
  - cbn [defaults mark_stopped] in Hc.
    destruct (defaults fr !! i) as [d|]; [|done].
    assert (fill_column previous i (mark_stopped i fr) = Normal fr') as H'
      by (by destruct d).
    rewrite (fill_column_stopped _ _ _ _ H'). simpl.
    by apply list_lookup_insert_ne.
  - by injection Hc as <-.
Qed.

Lemma column_pull previous i fr x rest :
  stopped fr !! i = Some false →
  items fr !! i = Some (x :: rest) →
  column previous i fr = Normal (append_value x (advance_item i rest fr)).
Proof. intros Hs Hi. unfold column. by rewrite Hs, Hi. Qed.

(** A pass of the loop takes exactly the head from the iterator of a live
    column it goes through. *)
Lemma for_loop_pulls previous i x rest l : ∀ fr fr1,
  NoDup l →
  for_loop previous l fr = Normal fr1 →
  i ∈ l →
  stopped fr !! i = Some false →
  items fr !! i = Some (x :: rest) →
  items fr1 !! i = Some rest.
Proof.
  induction l as [|i0 l IH]; intros fr fr1 Hnd Hloop Hin Hs Hi.
  { by apply elem_of_nil in Hin. }
  apply NoDup_cons in Hnd as [Hnotin Hnd]. cbn [for_loop] in Hloop.
  destruct (decide (i = i0)) as [<-|Hne].
  - rewrite (column_pull _ _ _ _ _ Hs Hi) in Hloop.
    apply for_loop_frame in Hloop as (Hitems & _).
    rewrite (Hitems i Hnotin). simpl.
    apply list_lookup_insert_eq. by apply lookup_lt_Some in Hi.
  - destruct (column previous i0 fr) as [fr'| |] eqn:Hc; try done.
    destruct (column_other _ _ _ _ i Hc Hne) as [Hs' Hi'].
    apply (IH fr' fr1); try done.
    + apply elem_of_cons in Hin as [?|?]; done.
    + by rewrite Hs'.
    + by rewrite Hi'.
Qed.

(** X9: when a request ends because the loop finds column [k], whose
    default is StopIteration, empty, the request has already taken one
    element from the iterator of every earlier column that was still live;
    the request yields no row, so these elements are lost. *)
Theorem stop_loses_pulled_elements g previous fr k fr1 :
  loop_entry g = Some (previous, fr) →
  k < n_items fr →
  for_loop previous (seq 0 k) fr = Normal fr1 →
  stopped fr1 !! k = Some false →
  items fr1 !! k = Some [] →
  defaults fr1 !! k = Some VStopIteration →
  ∃ cursors,
    next g = (StopIter, Closed cursors)
    ∧ ∀ i x rest,
        i < k →
        stopped fr !! i = Some false →
        items fr !! i = Some (x :: rest) →
        cursors !! i = Some rest.
Proof.
  intros Hentry Hk Hloop Hs Hi Hd.
  exists (items fr1). split.
  - rewrite (next_loop_entry _ _ _ Hentry), (seq_split_at k) by done.
    rewrite for_loop_app, Hloop. cbn [for_loop].
    by rewrite column_stop.
  - intros i x rest Hik Hsi Hii.
    apply (for_loop_pulls previous i x rest (seq 0 k) fr fr1); try done.
    + apply NoDup_seq.
    + apply elem_of_seq. lia.
Qed.

Lemma stop_loses_pulled_elements_witness :
  ∃ cursors,
    next (advance 2 (Created stop_demo stop_demo_defaults))
    = (StopIter, Closed cursors)
    ∧ cursors !! 0 = Some (chars "def").
Proof.
  pose proof (λ previous fr,
              stop_loses_pulled_elements
                (advance 2 (Created stop_demo stop_demo_defaults))
                previous fr 1) as H.
  edestruct H as (cursors & Hnext & Hlost).
  - vm_compute. reflexivity.
  - vm_compute. lia.
  - vm_compute. reflexivity.
  - reflexivity.
  - reflexivity.
  - reflexivity.
  - exists cursors. split; [exact Hnext|].
    apply (Hlost 0 (VStr "c") (chars "def")); [lia|reflexivity..].
Defined.

(** X10: what a column shows in a row depends on the column alone: two
    calls that both yield a row [j] and that each have a column with the
    same elements and the same default agree on that column in row [j],
    whatever their other columns are. *)
Theorem column_independent
    fuel1 iterables1 dflt1 rows1 e1 fuel2 iterables2 dflt2 rows2 e2
    j row1 row2 i1 i2 it1 it2 d :
  run fuel1 (Created iterables1 dflt1) = (rows1, e1) →
  run fuel2 (Created iterables2 dflt2) = (rows2, e2) →
  rows1 !! j = Some row1 →
  rows2 !! j = Some row2 →
  iterables1 !! i1 = Some it1 →
  iterables2 !! i2 = Some it2 →
  as_iter it1 = as_iter it2 →
  elements (given_defaults iterables1 dflt1) !! i1 = Some d →
  elements (given_defaults iterables2 dflt2) !! i2 = Some d →
  row1 !! i1 = row2 !! i2.
Proof.
  intros Hrun1 Hrun2 Hj1 Hj2 Hi1 Hi2 Hsame Hd1 Hd2.
  destruct (run_row_at _ _ _ _ _ _ _ Hrun1 Hj1) as (_ & -> & _).
  destruct (run_row_at _ _ _ _ _ _ _ Hrun2 Hj2) as (_ & -> & _).
  rewrite (row_at_lookup _ _ _ _ (columns_lookup _ _ _ _ _ Hi1 Hd1)).
  rewrite (row_at_lookup _ _ _ _ (columns_lookup _ _ _ _ _ Hi2 Hd2)).
  by rewrite Hsame.
Qed.

Lemma column_independent_witness :
  run 20 (Created raise_demo raise_demo_defaults)
  = (first_six, Raised (IndexError "Oh no!"))
  ∧ run 20 (Created [VInt 7; range10] (VSeq [VNone; VPrevious]))
    = ((λ j, [default VNone ([VInt 7] !! j); VInt (Z.of_nat j)])
         <$> seq 0 10,
       Finished)
  ∧ row3 4 5 "e" !! 0 = [VNone; VInt 4] !! 1.
Proof.
  assert (run 20 (Created raise_demo raise_demo_defaults)
          = (first_six, Raised (IndexError "Oh no!"))) as Hrun1
    by (by vm_compute).
  assert (run 20 (Created [VInt 7; range10] (VSeq [VNone; VPrevious]))
          = ((λ j, [default VNone ([VInt 7] !! j); VInt (Z.of_nat j)])
               <$> seq 0 10,
             Finished)) as Hrun2 by (by vm_compute).
  split; [exact Hrun1|]. split; [exact Hrun2|].
  exact (column_independent 20 raise_demo raise_demo_defaults _ _
           20 [VInt 7; range10] (VSeq [VNone; VPrevious]) _ _
           4 (row3 4 5 "e") [VNone; VInt 4] 0 1 range10 range10 VPrevious
           Hrun1 Hrun2 eq_refl eq_refl eq_refl eq_refl eq_refl
           eq_refl eq_refl).
Defined.

(** ** Exhaustion is kept *)

Lemma fill_column_keeps previous i fr :
  stopped (ctl_frame (fill_column previous i fr)) = stopped fr
  ∧ items (ctl_frame (fill_column previous i fr)) = items fr.
Proof.
  unfold fill_column.
  repeat match goal with
         | |- context [match ?x with _ => _ end] => destruct x
         end; done.
Qed.

Lemma column_sticky previous i0 fr i :
  stopped fr !! i = Some true →
  stopped (ctl_frame (column previous i0 fr)) !! i = Some true
  ∧ items (ctl_frame (column previous i0 fr)) !! i = items fr !! i.
Proof.
  intros Hs. unfold column.
  destruct (stopped fr !! i0) as [[]|] eqn:Hs0; [| |done].
  { by destruct (fill_column_keeps previous i0 fr) as [-> ->]. }
  assert (i ≠ i0) as Hne by congruence.
  destruct (items fr !! i0) as [[|x rest]|]; [| |done].
  - cbn [defaults mark_stopped].
    assert (stopped (mark_stopped i0 fr) !! i = Some true) as Hs'.
    { simpl. by rewrite list_lookup_insert_ne. }
    destruct (defaults fr !! i0) as [d|]; [|done].
    destruct (fill_column_keeps previous i0 (mark_stopped i0 fr))
      as [Hks Hki].
    destruct d; try done; by rewrite Hks, Hki.
  - simpl. split; [done|]. by apply list_lookup_insert_ne.
Qed.

(** X11: exhaustion is kept.  A column that is marked stopped when a pass
    of the loop begins is still marked stopped when the pass ends, however
    it ends, and the pass has taken nothing from its iterator, even if the
    iterator had something to give again. *)
Theorem exhaustion_is_kept previous l : ∀ fr i,
  stopped fr !! i = Some true →
  stopped (ctl_frame (for_loop previous l fr)) !! i = Some true
  ∧ items (ctl_frame (for_loop previous l fr)) !! i = items fr !! i.
Proof.
  induction l as [|i0 l IH]; intros fr i Hs; [done|].
  cbn [for_loop].
  destruct (column_sticky previous i0 fr i Hs) as [Hs' Hi'].
  destruct (column previous i0 fr) as [fr'| |]; try done.
  simpl in Hs', Hi'. destruct (IH fr' i Hs') as [? Hi]. by rewrite Hi.
Qed.

Lemma exhaustion_is_kept_witness :
  items (ctl_frame
           (for_loop None [0; 1]
              (Frame [VNone; VNone] [[VInt 1]; [VInt 2]] 2 1
                     [true; false] 0 []))) !! 0
  = Some [VInt 1].
Proof.
  exact (proj2 (exhaustion_is_kept None [0; 1]
                  (Frame [VNone; VNone] [[VInt 1]; [VInt 2]] 2 1
                         [true; false] 0 [])
                  0 eq_refl)).
Defined.
